(** * Email scheduler: batch planner, rate limiter, worker and coordinator

    A shallow embedding of the delivery pipeline of the email scheduler
    backend:
    - [ratelimit.service.ts]: [calculateScheduledTimes], [checkRateLimit],
      [incrementRateLimit], [getNextAvailableSlot];
    - [email.queue.ts]: [generateJobId], [addEmailJob], [addEmailJobs],
      [rescheduleJob];
    - [email.worker.ts]: [processEmailJob];
    - [email.controller.ts]: [scheduleEmails], [cancelEmail], and the
      earlier [cancelEmail] of the compiled [dist/] tree.

    Conventions of the embedding.
    - An instant is a JavaScript [Date], that is, an integer counting
      milliseconds since the epoch; numbers are integers ([Z]), without
      the range of [Date] or the precision of doubles.
    - The local zone of the process is a fixed offset from UTC; zones
      whose offset changes (daylight saving) are not covered.
    - An [async] function is a function from the state of the store, the
      counters, the queue and the transport to an outcome (resolved or
      rejected) and the next state: every call settles.  A call that
      stays pending (a Redis command waiting for a server that cannot be
      reached) has no outcome here and nothing is said of it.  One call
      runs alone: the [await]s of a [Promise.all] are taken in index
      order and nothing interleaves.
    - The database, Redis and the queue reject only where the model says
      so: [update] and [delete] of an absent row, [create] on a key in
      use, the Redis commands when [Env.redisUp] is false, the queue
      when adding throws. *)

From Stdlib Require Import ZArith Lia Bool.
From stdpp Require Import gmap strings list fin_maps pretty.

Local Open Scope Z_scope.

(** ** Clock arithmetic of [Date] *)

Module Clock.

Definition MS_PER_SECOND : Z := 1000.
Definition MS_PER_HOUR : Z := 3600000.

Section LocalZone.

(** The local zone of the process, as its offset from UTC in
    milliseconds (local = UTC + [tz]).  A zone is a fixed offset here:
    zones whose offset changes (daylight saving) are outside the model,
    and what is proved below is proved of a process whose zone keeps one
    offset. *)
Variable tz : Z.

(** [d.setMinutes(0, 0, 0)]: clears the local minutes, seconds and
    milliseconds of [d]. *)
Definition setMinutes000 (t : Z) : Z := t - (t + tz) mod MS_PER_HOUR.

(** [d.setHours(d.getHours() + 1)] in a zone of fixed offset: one hour
    later (the hour field overflows into the date).  In a zone whose
    clock is set back or forward between [d] and the result the call
    lands elsewhere, after a set-back up to two hours later; no such zone
    is an instance of [tz]. *)
Definition setHoursPlus1 (t : Z) : Z := t + MS_PER_HOUR.

(** [new Date(y, m, d, h, 0, 0, 0)] from the local fields of [now]
    ([getCurrentHourStart]). *)
Definition getCurrentHourStart (now : Z) : Z := setMinutes000 now.

(** [getNextHourStart]. *)
Definition getNextHourStart (now : Z) : Z :=
  setHoursPlus1 (getCurrentHourStart now).

(** An instant lies on a local hour boundary. *)
Definition hour_aligned (h : Z) : Prop := setMinutes000 h = h.

(** Membership of [t] in the one-hour window starting at [h]. *)
Definition in_window (h t : Z) : bool := (h <=? t) && (t <? h + MS_PER_HOUR).

(** Number of instants of [l] in the one-hour window starting at [h]. *)
Definition count_in (h : Z) (l : list Z) : Z :=
  Z.of_nat (length (List.filter (in_window h) l)).

End LocalZone.

(** The UTC hour number of an instant: the part of the counter key
    [YYYY-MM-DD-HH] built from [getUTCFullYear], [getUTCMonth],
    [getUTCDate] and [getUTCHours]. *)
Definition utcHour (t : Z) : Z := t / MS_PER_HOUR.

(** Start of the UTC hour after the one holding [t]. *)
Definition nextUtcHourStart (t : Z) : Z := (t / MS_PER_HOUR + 1) * MS_PER_HOUR.

End Clock.

(** ** Batch planner ([calculateScheduledTimes]) *)

Module Planner.
Import Clock.

(** The loop variables of [calculateScheduledTimes]. *)
Record PlanState := mkPlanState {
  currentTime : Z;
  emailsInCurrentHour : Z;
  currentHourStart : Z;
}.

Section WithZone.
Variable tz : Z.

(** First half of the loop body: the hourly-limit check. *)
Definition limit_check (hourlyLimit : Z) (st : PlanState) : PlanState :=
  if hourlyLimit <=? emailsInCurrentHour st then
    let ct := setHoursPlus1 (currentHourStart st) in
    mkPlanState ct 0 (setMinutes000 tz ct)
  else st.

(** Second half of the loop body, after the push: advance the cursor by
    the delay and reset the bucket on an hour crossing. *)
Definition advance (delayBetweenEmails : Z) (st : PlanState) : PlanState :=
  let emails := emailsInCurrentHour st + 1 in
  let ct := currentTime st + delayBetweenEmails * MS_PER_SECOND in
  let newHourStart := setMinutes000 tz ct in
  if currentHourStart st <? newHourStart then
    mkPlanState ct 0 newHourStart
  else
    mkPlanState ct emails (currentHourStart st).

(** One iteration: the pushed instant and the next loop state. *)
Definition plan_step (delayBetweenEmails hourlyLimit : Z) (st : PlanState)
  : Z * PlanState :=
  let st1 := limit_check hourlyLimit st in
  (currentTime st1, advance delayBetweenEmails st1).

(** The [for] loop; [scheduledTimes] is the array being pushed to. *)
Fixpoint plan_loop (n : nat) (delayBetweenEmails hourlyLimit : Z)
    (st : PlanState) (scheduledTimes : list Z) : list Z :=
  match n with
  | O => scheduledTimes
  | S n' =>
      let '(t, st') := plan_step delayBetweenEmails hourlyLimit st in
      plan_loop n' delayBetweenEmails hourlyLimit st' (scheduledTimes ++ [t])
  end.

(** The body of [calculateScheduledTimes(count, startTime,
    delayBetweenEmails, hourlyLimit, senderId)]: the array it resolves
    with.  The loop [for (i = 0; i < count; i++)] runs [Z.to_nat count]
    times. *)
Definition calculateScheduledTimes (count startTime delayBetweenEmails
    hourlyLimit : Z) (senderId : option string) : list Z :=
  plan_loop (Z.to_nat count) delayBetweenEmails hourlyLimit
    (mkPlanState startTime 0 (setMinutes000 tz startTime)) [].

(** What two neighbouring instants [a], [b] of a plan satisfy, [seen]
    being the plan up to and including [a]: same hour means exactly the
    spacing apart; a full hour that the spacing would not leave means
    [b] is the next hour start; and [b] is always one of the two. *)
Definition next_ok (delay cap : Z) (seen : list Z) (a b : Z) : Prop :=
  (setMinutes000 tz a = setMinutes000 tz b -> b = a + delay * MS_PER_SECOND)
  /\ (count_in (setMinutes000 tz a) seen = cap ->
      setMinutes000 tz (a + delay * MS_PER_SECOND) = setMinutes000 tz a ->
      b = setMinutes000 tz a + MS_PER_HOUR /\ hour_aligned tz b)
  /\ (b = a + delay * MS_PER_SECOND \/ b = setMinutes000 tz a + MS_PER_HOUR).

(** The loop invariant: [acc] is the array pushed so far, [st] the loop
    variables before the next iteration. *)
Record plan_inv (delay cap : Z) (acc : list Z) (st : PlanState) : Prop := {
  inv_hour : currentHourStart st = setMinutes000 tz (currentTime st);
  inv_count : emailsInCurrentHour st = count_in (currentHourStart st) acc;
  inv_below : Forall (fun x => x <= currentTime st) acc;
  inv_last : forall pre a, acc = pre ++ [a] ->
             currentTime st = a + delay * MS_PER_SECOND
             /\ Forall (fun x => x <= a) acc;
  inv_cap : forall h, hour_aligned tz h -> count_in h acc <= cap;
  inv_mono : forall (i j : nat) a b, (i <= j)%nat ->
             acc !! i = Some a -> acc !! j = Some b -> a <= b;
  inv_next : forall (i : nat) a b,
             acc !! i = Some a -> acc !! S i = Some b ->
             next_ok delay cap (take (S i) acc) a b;
}.

End WithZone.
End Planner.

(** ** JavaScript values and the effect monad *)

Module Js.

(** A thrown value: an [Error] object with its message, or another value
    (for which [e instanceof Error] is false). *)
Inductive Thrown :=
  | JsError (message : string)
  | JsOther.

(** Truthiness of an optional string ([undefined], [null] and the empty
    string are falsy). *)
Definition truthy (s : option string) : bool :=
  match s with
  | Some s' => negb (String.eqb s' "")
  | None => false
  end.

(** [a || b] on optional strings with a string default. *)
Definition or_string (a : option string) (b : string) : string :=
  match a with
  | Some s => if String.eqb s "" then b else s
  | None => b
  end.

(** [a || b] on numbers: [0] is falsy. *)
Definition or_number (a : option Z) (b : Z) : Z :=
  match a with
  | Some n => if n =? 0 then b else n
  | None => b
  end.

(** [s.includes(sub)]. *)
Fixpoint includes (sub s : string) : bool :=
  String.prefix sub s ||
  match s with
  | EmptyString => false
  | String _ s' => includes sub s'
  end.

(** [error instanceof Error ? error.message : fallback]. *)
Definition message_or (e : Thrown) (fallback : string) : string :=
  match e with
  | JsError m => m
  | JsOther => fallback
  end.

(** Result of running an [async] function: it resolves with a value or
    rejects with a thrown value. *)
Inductive Outcome (A : Type) :=
  | Ok (a : A)
  | Throw (e : Thrown).
Arguments Ok {A} a.
Arguments Throw {A} e.

(** An [async] computation over a store [S]: the writes made before a
    rejection stay (nothing is rolled back). *)
Definition M (S A : Type) : Type := S -> Outcome A * S.

Definition ret {S A} (a : A) : M S A := fun w => (Ok a, w).

Definition throw {S A} (e : Thrown) : M S A := fun w => (Throw e, w).

Definition bind {S A B} (m : M S A) (k : A -> M S B) : M S B :=
  fun w =>
    match m w with
    | (Ok a, w') => k a w'
    | (Throw e, w') => (Throw e, w')
    end.

(** [try { m } catch (error) { h error }]. *)
Definition tryCatch {S A} (m : M S A) (h : Thrown -> M S A) : M S A :=
  fun w =>
    match m w with
    | (Ok a, w') => (Ok a, w')
    | (Throw e, w') => h e w'
    end.

Definition get {S} : M S S := fun w => (Ok w, w).

Definition modify {S} (f : S -> S) : M S unit := fun w => (Ok tt, f w).

(** [if (c) { m }] for a statement. *)
Definition when {S} (c : bool) (m : M S unit) : M S unit :=
  if c then m else ret tt.

(** [for (const x of l) { await f(x) }], collecting the results. *)
Fixpoint mapM {S A B} (f : A -> M S B) (l : list A) : M S (list B) :=
  match l with
  | [] => ret []
  | x :: l' =>
      bind (f x) (fun y => bind (mapM f l') (fun ys => ret (y :: ys)))
  end.

End Js.

Declare Scope js_scope.
Delimit Scope js_scope with js.
Notation "'let*' x ':=' c1 'in' c2" := (Js.bind c1 (fun x => c2))
  (at level 10, x pattern, c1 at level 100, c2 at level 200) : js_scope.
Notation "c1 ;; c2" := (Js.bind c1 (fun _ => c2))
  (at level 100, c2 at level 200, right associativity) : js_scope.

(** ** Data model: rows, jobs, configuration *)

Inductive EmailStatus :=
  | SCHEDULED
  | PROCESSING
  | SENT
  | FAILED
  | RATE_LIMITED.

#[global] Instance EmailStatus_eq_dec : EqDecision EmailStatus.
Proof. solve_decision. Defined.

(** A row of table [emails]. *)
Module Email.
Record t := mk {
  userId : string;
  senderId : option string;
  recipientEmail : string;
  subject : string;
  body : string;
  scheduledAt : Z;
  sentAt : option Z;
  status : EmailStatus;
  errorMessage : option string;
  retryCount : Z;
  maxRetries : Z;
  jobId : option string;
  messageId : option string;
  previewUrl : option string;
  batchId : option string;
  batchIndex : option Z;
}.
End Email.

(** The [data] object of [prisma.email.update]: a field that is absent
    (or [undefined]) leaves the column as it is. *)
Module Patch.
Record t := mk {
  status : option EmailStatus;
  jobId : option string;
  errorMessage : option string;
  retryCount : option Z;
  sentAt : option Z;
  messageId : option string;
  previewUrl : option string;
}.
Definition empty : t := mk None None None None None None None.

Definition over {A} (new : option A) (old : option A) : option A :=
  match new with
  | Some x => Some x
  | None => old
  end.

Definition apply (p : t) (e : Email.t) : Email.t :=
  Email.mk (Email.userId e) (Email.senderId e) (Email.recipientEmail e)
    (Email.subject e) (Email.body e) (Email.scheduledAt e)
    (over (sentAt p) (Email.sentAt e))
    (default (Email.status e) (status p))
    (over (errorMessage p) (Email.errorMessage e))
    (default (Email.retryCount e) (retryCount p))
    (Email.maxRetries e)
    (over (jobId p) (Email.jobId e))
    (over (messageId p) (Email.messageId e))
    (over (previewUrl p) (Email.previewUrl e))
    (Email.batchId e) (Email.batchIndex e).
End Patch.

(** A row of table [email_batches]. *)
Module EmailBatch.
Record t := mk {
  userId : string;
  totalEmails : Z;
  scheduledEmails : Z;
  sentEmails : Z;
  failedEmails : Z;
  startTime : Z;
  delayBetweenEmails : Z;
  hourlyLimit : Z;
}.
End EmailBatch.

(** A row of table [senders]. *)
Module Sender.
Record t := mk {
  id : string;
  userId : string;
  email : string;
  name : string;
  smtpHost : option string;
  smtpPort : option Z;
  smtpUser : option string;
  smtpPass : option string;
  isDefault : bool;
  isActive : bool;
}.
End Sender.

(** [EmailJobData], the payload of a queue job. *)
Module EmailJobData.
Record t := mk {
  emailId : string;
  recipientEmail : string;
  subject : string;
  body : string;
  senderId : option string;
  userId : string;
  batchId : option string;
  attemptNumber : Z;
}.
End EmailJobData.

(** A job held by the queue, with the options it was added with. *)
Module Job.
Record t := mk {
  id : string;
  data : EmailJobData.t;
  delay : Z;
  priority : Z;
  attempts : Z;
}.
End Job.

Module SMTPConfig.
Record t := mk {
  host : string;
  port : Z;
  secure : bool;
  user : string;
  pass : string;
}.
End SMTPConfig.

Module SendEmailOptions.
Record t := mk {
  from : string;
  to : string;
  subject : string;
  html : string;
}.
End SendEmailOptions.

Module SendEmailResult.
Record t := mk {
  success : bool;
  messageId : option string;
  previewUrl : option string;
  error : option string;
}.
End SendEmailResult.

Module EmailJobResult.
Record t := mk {
  success : bool;
  messageId : option string;
  previewUrl : option string;
  error : option string;
}.
End EmailJobResult.

Module RateLimitCheck.
Record t := mk {
  allowed : bool;
  remaining : Z;
  resetTime : Z;
  nextAvailableSlot : Z;
}.
End RateLimitCheck.

(** The part of [config] the pipeline reads. *)
Module Config.
Record t := mk {
  maxRetries : Z;                 (* config.worker.maxRetries *)
  retryDelay : Z;                 (* config.worker.retryDelay *)
  maxEmailsPerHour : Z;           (* config.rateLimit.maxEmailsPerHour *)
  maxEmailsPerHourPerSender : Z;  (* config.rateLimit.maxEmailsPerHourPerSender *)
}.
End Config.

(** What the surroundings answer during one call: the clock, the zone,
    whether the Redis commands resolve or reject ([redisUp]), whether
    adding to the queue rejects ([queueError]), what the mail transport
    returns, and the identifiers the database generates.  Every awaited
    call settles here.  A command that stays pending has no outcome in
    this model: the Redis client of the repository
    ([maxRetriesPerRequest: null], a [retryStrategy] that always retries)
    keeps a command waiting while the server cannot be reached, and
    nothing below speaks of such a call. *)
Module Env.
Record t := mk {
  now : Z;
  tz : Z;
  redisUp : bool;
  queueError : option Js.Thrown;   (* [Some e]: adding to the queue throws [e] *)
  transport : SendEmailOptions.t -> option SMTPConfig.t -> SendEmailResult.t;
  uuid : nat -> string;
  toISOString : Z -> string;
}.
End Env.

(** A write to the [status] column: row, status before, status after. *)
Record StatusWrite := mkStatusWrite {
  sw_id : string;
  sw_from : EmailStatus;
  sw_to : EmailStatus;
}.

(** Key of an hourly counter: the sender scope ([None] for the global
    counter) and the hour.  The Redis key string
    [ratelimit:email:{global|sender:<id>}:YYYY-MM-DD-HH] is determined by
    the scope and the UTC hour number; the durable key
    [{global|sender:<id>}:<hourStartIso>] by the scope and the instant
    of the local hour start. *)
Definition CounterKey : Type := option string * Z.

(** The durable store, the Redis counters, the queue and the mail
    transport, as one state.  [outbox] lists the envelopes handed to the
    transport and [statusLog] the writes to the [status] column, both
    oldest first; they are history, not read by the code. *)
Module World.
Record t := mk {
  emails : gmap string Email.t;
  emailBatches : gmap string EmailBatch.t;
  senders : list Sender.t;
  rateLimitCounters : gmap CounterKey Z;
  redis : gmap CounterKey Z;
  queue : list Job.t;
  nextUuid : nat;
  outbox : list SendEmailOptions.t;
  statusLog : list StatusWrite;
}.

Definition set_emails (f : gmap string Email.t -> gmap string Email.t) (w : t) : t :=
  mk (f (emails w)) (emailBatches w) (senders w) (rateLimitCounters w)
     (redis w) (queue w) (nextUuid w) (outbox w) (statusLog w).
Definition set_emailBatches (f : gmap string EmailBatch.t -> gmap string EmailBatch.t)
    (w : t) : t :=
  mk (emails w) (f (emailBatches w)) (senders w) (rateLimitCounters w)
     (redis w) (queue w) (nextUuid w) (outbox w) (statusLog w).
Definition set_rateLimitCounters (f : gmap CounterKey Z -> gmap CounterKey Z)
    (w : t) : t :=
  mk (emails w) (emailBatches w) (senders w) (f (rateLimitCounters w))
     (redis w) (queue w) (nextUuid w) (outbox w) (statusLog w).
Definition set_redis (f : gmap CounterKey Z -> gmap CounterKey Z) (w : t) : t :=
  mk (emails w) (emailBatches w) (senders w) (rateLimitCounters w)
     (f (redis w)) (queue w) (nextUuid w) (outbox w) (statusLog w).
Definition set_queue (f : list Job.t -> list Job.t) (w : t) : t :=
  mk (emails w) (emailBatches w) (senders w) (rateLimitCounters w)
     (redis w) (f (queue w)) (nextUuid w) (outbox w) (statusLog w).
Definition set_nextUuid (f : nat -> nat) (w : t) : t :=
  mk (emails w) (emailBatches w) (senders w) (rateLimitCounters w)
     (redis w) (queue w) (f (nextUuid w)) (outbox w) (statusLog w).
Definition set_outbox (f : list SendEmailOptions.t -> list SendEmailOptions.t)
    (w : t) : t :=
  mk (emails w) (emailBatches w) (senders w) (rateLimitCounters w)
     (redis w) (queue w) (nextUuid w) (f (outbox w)) (statusLog w).
Definition set_statusLog (f : list StatusWrite -> list StatusWrite) (w : t) : t :=
  mk (emails w) (emailBatches w) (senders w) (rateLimitCounters w)
     (redis w) (queue w) (nextUuid w) (outbox w) (f (statusLog w)).
End World.

(** An [async] function of the backend. *)
Abbreviation Async := (Js.M World.t).

Local Open Scope js_scope.

(** ** The database client ([prisma]) *)

Module Prisma.
Import Js.

(** [PrismaClientKnownRequestError] P2025: [update] and [delete] reject
    when no row matches [where]. *)
Definition P2025 : Thrown :=
  JsError "An operation failed because it depends on one or more records that were required but not found.".

(** P2002: [create] rejects on a primary-key collision. *)
Definition P2002 : Thrown :=
  JsError "Unique constraint failed on the fields: (`id`)".

Definition log_status (id : string) (from : EmailStatus) (p : Patch.t)
  : list StatusWrite :=
  match Patch.status p with
  | Some s => [mkStatusWrite id from s]
  | None => []
  end.

(** [prisma.email.findUnique({ where: { id } })]. *)
Definition email_findUnique (id : string) : Async (option Email.t) :=
  fun w => (Ok (World.emails w !! id), w).

(** [prisma.email.update({ where: { id }, data })]. *)
Definition email_update (id : string) (data : Patch.t) : Async Email.t :=
  fun w =>
    match World.emails w !! id with
    | None => (Throw P2025, w)
    | Some e =>
        let e' := Patch.apply data e in
        (Ok e',
         World.set_statusLog (fun l => l ++ log_status id (Email.status e) data)
           (World.set_emails (insert id e') w))
    end.

(** [prisma.email.updateMany({ where: { batchId }, data })]: the number
    of rows written. *)
Definition email_updateMany_batch (batchId : string) (data : Patch.t) : Async Z :=
  fun w =>
    let hit := List.filter
      (fun kv : string * Email.t => bool_decide (Email.batchId kv.2 = Some batchId))
      (map_to_list (World.emails w)) in
    (Ok (Z.of_nat (length hit)),
     World.set_statusLog
       (fun l => l ++ concat (List.map
          (fun kv : string * Email.t => log_status kv.1 (Email.status kv.2) data) hit))
       (World.set_emails
          (fmap (fun e => if bool_decide (Email.batchId e = Some batchId)
                          then Patch.apply data e else e)) w)).

(** [prisma.email.delete({ where: { id } })]. *)
Definition email_delete (id : string) : Async unit :=
  fun w =>
    match World.emails w !! id with
    | None => (Throw P2025, w)
    | Some _ => (Ok tt, World.set_emails (delete id) w)
    end.

(** [prisma.email.create({ data })]: the row gets a generated id. *)
Definition email_create (env : Env.t) (e : Email.t) : Async (string * Email.t) :=
  fun w =>
    let id := Env.uuid env (World.nextUuid w) in
    let w1 := World.set_nextUuid S w in
    match World.emails w !! id with
    | Some _ => (Throw P2002, w1)
    | None => (Ok (id, e), World.set_emails (insert id e) w1)
    end.

(** [prisma.emailBatch.create({ data })]. *)
Definition emailBatch_create (env : Env.t) (b : EmailBatch.t)
  : Async (string * EmailBatch.t) :=
  fun w =>
    let id := Env.uuid env (World.nextUuid w) in
    let w1 := World.set_nextUuid S w in
    match World.emailBatches w !! id with
    | Some _ => (Throw P2002, w1)
    | None => (Ok (id, b), World.set_emailBatches (insert id b) w1)
    end.

(** [prisma.emailBatch.update({ where: { id }, data })] with the
    function [f] standing for [data]. *)
Definition emailBatch_update (id : string) (f : EmailBatch.t -> EmailBatch.t)
  : Async unit :=
  fun w =>
    match World.emailBatches w !! id with
    | None => (Throw P2025, w)
    | Some b => (Ok tt, World.set_emailBatches (insert id (f b)) w)
    end.

Definition incr_sentEmails (b : EmailBatch.t) : EmailBatch.t :=
  EmailBatch.mk (EmailBatch.userId b) (EmailBatch.totalEmails b)
    (EmailBatch.scheduledEmails b) (EmailBatch.sentEmails b + 1)
    (EmailBatch.failedEmails b) (EmailBatch.startTime b)
    (EmailBatch.delayBetweenEmails b) (EmailBatch.hourlyLimit b).

Definition incr_failedEmails (b : EmailBatch.t) : EmailBatch.t :=
  EmailBatch.mk (EmailBatch.userId b) (EmailBatch.totalEmails b)
    (EmailBatch.scheduledEmails b) (EmailBatch.sentEmails b)
    (EmailBatch.failedEmails b + 1) (EmailBatch.startTime b)
    (EmailBatch.delayBetweenEmails b) (EmailBatch.hourlyLimit b).

(** [prisma.sender.findUnique({ where: { id } })]. *)
Definition sender_findUnique (id : string) : Async (option Sender.t) :=
  fun w => (Ok (List.find (fun s => String.eqb (Sender.id s) id) (World.senders w)), w).

(** [prisma.sender.findFirst({ where })]: the first row, in table
    order, that passes the filter. *)
Definition sender_findFirst (whereClause : Sender.t -> bool) : Async (option Sender.t) :=
  fun w => (Ok (List.find whereClause (World.senders w)), w).

(** [prisma.email.count] of the rows with [status: 'SENT'] and
    [sentAt] in [[gte, lt)], of one sender when [senderId] is given. *)
Definition email_count_sent (senderId : option string) (gte lt : Z) : Async Z :=
  fun w =>
    let hit := List.filter
      (fun kv : string * Email.t =>
         bool_decide (Email.status kv.2 = SENT)
         && match Email.sentAt kv.2 with
            | Some t => (gte <=? t) && (t <? lt)
            | None => false
            end
         && match senderId with
            | Some s => bool_decide (Email.senderId kv.2 = Some s)
            | None => true
            end)
      (map_to_list (World.emails w)) in
    (Ok (Z.of_nat (length hit)), w).

(** [prisma.rateLimitCounter.upsert]: add one to the counter of [key],
    created at [1]. *)
Definition rateLimitCounter_upsert (key : CounterKey) : Async unit :=
  modify (World.set_rateLimitCounters
    (fun m => <[key := default 0 (m !! key) + 1]> m)).

End Prisma.

(** ** Rate limiter ([ratelimit.service.ts]) *)

Module RateLimit.
Import Js Clock.

Section WithConfig.
Variable cfg : Config.t.
Variable env : Env.t.

(** [getRateLimitKey(senderId?)]. *)
Definition getRateLimitKey (senderId : option string) : CounterKey :=
  if truthy senderId then (senderId, utcHour (Env.now env))
  else (None, utcHour (Env.now env)).

(** [redis.get(key)]: it resolves with the value, or rejects when
    [Env.redisUp] is false (a command that fails; not a server that
    cannot be reached, see [Env]). *)
Definition redis_get (key : CounterKey) : Async (option Z) :=
  if Env.redisUp env then fun w => (Ok (World.redis w !! key), w)
  else throw (JsError "Redis connection is closed").

(** The pipeline [incr(key); expire(key, ttl)], for a call that
    settles: it resolves, or rejects when [Env.redisUp] is false.  The
    expiry is left out: with the local zone at a whole-hour offset from
    UTC it only reclaims the key of a past hour. *)
Definition redis_incr (key : CounterKey) : Async unit :=
  if Env.redisUp env then
    modify (World.set_redis (fun m => <[key := default 0 (m !! key) + 1]> m))
  else throw (JsError "Redis connection is closed").

(** The quota arithmetic shared by both paths of the check. *)
Definition quota (senderId : option string) (globalCount senderCount : Z) : Z :=
  let maxGlobal := Config.maxEmailsPerHour cfg in
  let maxPerSender := Config.maxEmailsPerHourPerSender cfg in
  let globalRemaining := Z.max 0 (maxGlobal - globalCount) in
  let senderRemaining :=
    if truthy senderId then Z.max 0 (maxPerSender - senderCount) else maxGlobal in
  Z.min globalRemaining senderRemaining.

(** [checkRateLimitFromDB(senderId?)]. *)
Definition checkRateLimitFromDB (senderId : option string) : Async RateLimitCheck.t :=
  let hourStart := getCurrentHourStart (Env.tz env) (Env.now env) in
  let hourEnd := getNextHourStart (Env.tz env) (Env.now env) in
  let* globalCount := Prisma.email_count_sent None hourStart hourEnd in
  let* senderCount :=
    (if truthy senderId then Prisma.email_count_sent senderId hourStart hourEnd
     else ret 0) in
  let remaining := quota senderId globalCount senderCount in
  ret (RateLimitCheck.mk (0 <? remaining) remaining hourEnd
         (if 0 <? remaining then Env.now env else hourEnd)).

(** [checkRateLimit(senderId?)]. *)
Definition checkRateLimit (senderId : option string) : Async RateLimitCheck.t :=
  let globalKey := getRateLimitKey None in
  tryCatch
    (let* g := redis_get globalKey in
     let globalCount := default 0 g in
     let* senderCount :=
       (if truthy senderId then
          let* s := redis_get (getRateLimitKey senderId) in ret (default 0 s)
        else ret 0) in
     let remaining := quota senderId globalCount senderCount in
     let allowed := 0 <? remaining in
     ret (RateLimitCheck.mk allowed remaining
            (getNextHourStart (Env.tz env) (Env.now env))
            (if allowed then Env.now env
             else getNextHourStart (Env.tz env) (Env.now env))))
    (fun _ => checkRateLimitFromDB senderId).

(** [updateDBRateLimit(senderId?)]. *)
Definition updateDBRateLimit (senderId : option string) : Async unit :=
  let hourStart := getCurrentHourStart (Env.tz env) (Env.now env) in
  Prisma.rateLimitCounter_upsert
    (if truthy senderId then (senderId, hourStart) else (None, hourStart)).

(** [incrementRateLimit(senderId?)]. *)
Definition incrementRateLimit (senderId : option string) : Async unit :=
  tryCatch
    (redis_incr (getRateLimitKey None) ;;
     when (truthy senderId) (redis_incr (getRateLimitKey senderId)))
    (fun _ => ret tt) ;;
  updateDBRateLimit senderId.

(** [getNextAvailableSlot(senderId?)]. *)
Definition getNextAvailableSlot (senderId : option string) : Async Z :=
  let* rateCheck := checkRateLimit senderId in
  if RateLimitCheck.allowed rateCheck then ret (Env.now env)
  else ret (RateLimitCheck.nextAvailableSlot rateCheck).

(** The exported [async] function [calculateScheduledTimes]: it awaits
    nothing and resolves with the planned array. *)
Definition calculateScheduledTimes (count startTime delayBetweenEmails
    hourlyLimit : Z) (senderId : option string) : Async (list Z) :=
  ret (Planner.calculateScheduledTimes (Env.tz env) count startTime
         delayBetweenEmails hourlyLimit senderId).

End WithConfig.
End RateLimit.

(** ** Queue ([email.queue.ts] over BullMQ) *)

Module EmailQueue.
Import Js.

Section WithConfig.
Variable cfg : Config.t.
Variable env : Env.t.

(** [generateJobId(emailId, attemptNumber)]. *)
Definition generateJobId (emailId : string) (attemptNumber : Z) : string :=
  "email-" +:+ emailId +:+ "-attempt-" +:+ pretty attemptNumber.

(** BullMQ's [Queue.add] with a custom [jobId], as the library
    documents it (this is the library's contract, not code of the
    repository): a job whose id the queue holds is not added again.  The
    list stands for the jobs the queue holds; the removal of finished
    jobs ([removeOnComplete], [removeOnFail]) is not modelled, and
    nothing below speaks of a job added again after its removal. *)
Definition enqueue (j : Job.t) (q : list Job.t) : list Job.t :=
  if existsb (fun j' => String.eqb (Job.id j') (Job.id j)) q then q
  else q ++ [j].

(** [emailQueue.add('send-email', data, opts)], for a call that
    settles: it resolves with the job, or rejects with
    [Env.queueError]. *)
Definition queue_add (j : Job.t) : Async string :=
  match Env.queueError env with
  | Some e => throw e
  | None => fun w => (Ok (Job.id j), World.set_queue (enqueue j) w)
  end.

(** [emailQueue.addBulk(jobs)], for a call that settles: it resolves
    with the jobs, or rejects with [Env.queueError].  A call that stays
    pending while the server cannot be reached is not an outcome of the
    model (see [Env]). *)
Definition queue_addBulk (js : list Job.t) : Async (list string) :=
  match Env.queueError env with
  | Some e => throw e
  | None =>
      fun w => (Ok (List.map Job.id js),
                World.set_queue (fun q => fold_left (fun q j => enqueue j q) js q) w)
  end.

(** The job of [data] to run at [scheduledAt]. *)
Definition make_job (data : EmailJobData.t) (scheduledAt priority : Z) : Job.t :=
  Job.mk
    (generateJobId (EmailJobData.emailId data) (EmailJobData.attemptNumber data))
    data
    (Z.max 0 (scheduledAt - Env.now env))
    priority
    (Config.maxRetries cfg).

(** [addEmailJob(data, scheduledAt, priority = 0)]. *)
Definition addEmailJob (data : EmailJobData.t) (scheduledAt priority : Z)
  : Async string :=
  queue_add (make_job data scheduledAt priority).

(** [addEmailJobs(jobs)]. *)
Definition addEmailJobs (jobs : list (EmailJobData.t * Z * Z)) : Async (list string) :=
  tryCatch
    (queue_addBulk
       (List.map (fun '(data, scheduledAt, priority) =>
                    make_job data scheduledAt priority) jobs))
    (fun error => throw error).

(** [rescheduleJob(data, nextAvailableTime)]. *)
Definition rescheduleJob (data : EmailJobData.t) (nextAvailableTime : Z)
  : Async string :=
  let newData :=
    EmailJobData.mk (EmailJobData.emailId data) (EmailJobData.recipientEmail data)
      (EmailJobData.subject data) (EmailJobData.body data)
      (EmailJobData.senderId data) (EmailJobData.userId data)
      (EmailJobData.batchId data) (EmailJobData.attemptNumber data + 1) in
  addEmailJob newData nextAvailableTime 0.

End WithConfig.
End EmailQueue.

(** ** Worker ([email.worker.ts]) *)

Module Worker.
Import Js.

(** The double-quote character of the [From] header. *)
Definition dquote : string := String (Ascii.ascii_of_nat 34) EmptyString.

Section WithConfig.
Variable cfg : Config.t.
Variable env : Env.t.

(** [sendEmail(options, smtpConfig)]: hands the envelope to the
    transport and returns its result; it never rejects. *)
Definition sendEmail (options : SendEmailOptions.t) (smtpConfig : option SMTPConfig.t)
  : Async SendEmailResult.t :=
  fun w => (Ok (Env.transport env options smtpConfig),
            World.set_outbox (fun l => l ++ [options]) w).

(** The sender lookup of the worker: the [From] address, the display
    name and the private transport configuration. *)
Definition resolveFrom (senderId : option string)
  : Async (string * string * option SMTPConfig.t) :=
  let fallback := ("noreply@emailscheduler.com", "Email Scheduler", None) in
  if truthy senderId then
    let* sender := Prisma.sender_findUnique (default "" senderId) in
    match sender with
    | Some sender =>
        let smtpConfig :=
          if truthy (Sender.smtpHost sender) && truthy (Sender.smtpUser sender)
             && truthy (Sender.smtpPass sender)
          then Some (SMTPConfig.mk
                       (default "" (Sender.smtpHost sender))
                       (or_number (Sender.smtpPort sender) 587)
                       (bool_decide (Sender.smtpPort sender = Some 465))
                       (default "" (Sender.smtpUser sender))
                       (default "" (Sender.smtpPass sender)))
          else None in
        ret (Sender.email sender, Sender.name sender, smtpConfig)
    | None => ret fallback
    end
  else ret fallback.

(** The [try] block of [processEmailJob]. *)
Definition processEmailJob_try (jobId : string) (data : EmailJobData.t)
  : Async EmailJobResult.t :=
  let emailId := EmailJobData.emailId data in
  let senderId := EmailJobData.senderId data in
  (* Update email status to PROCESSING *)
  Prisma.email_update emailId
    (Patch.mk (Some PROCESSING) (Some jobId) None None None None None) ;;
  (* Check rate limit before sending *)
  let* rateCheck := RateLimit.checkRateLimit cfg env senderId in
  if negb (RateLimitCheck.allowed rateCheck) then
    Prisma.email_update emailId
      (Patch.mk (Some RATE_LIMITED) None None None None None None) ;;
    let* nextSlot := RateLimit.getNextAvailableSlot cfg env senderId in
    EmailQueue.rescheduleJob cfg env data nextSlot ;;
    ret (EmailJobResult.mk false None None
           (Some ("Rate limited. Rescheduled for " +:+ Env.toISOString env nextSlot)))
  else
    let* (fromAddress, fromName, smtpConfig) := resolveFrom senderId in
    let* result :=
      sendEmail
        (SendEmailOptions.mk
           (dquote +:+ fromName +:+ dquote +:+ " <" +:+ fromAddress +:+ ">")
           (EmailJobData.recipientEmail data)
           (EmailJobData.subject data)
           (EmailJobData.body data))
        smtpConfig in
    if SendEmailResult.success result then
      RateLimit.incrementRateLimit env senderId ;;
      Prisma.email_update emailId
        (Patch.mk (Some SENT) None None None (Some (Env.now env))
           (SendEmailResult.messageId result) (SendEmailResult.previewUrl result)) ;;
      let* email := Prisma.email_findUnique emailId in
      when (truthy (email ≫= Email.batchId))
        (Prisma.emailBatch_update (default "" (email ≫= Email.batchId))
           Prisma.incr_sentEmails) ;;
      ret (EmailJobResult.mk true (SendEmailResult.messageId result)
             (SendEmailResult.previewUrl result) None)
    else
      throw (JsError (or_string (SendEmailResult.error result)
                        "Unknown email sending error")).

(** The [catch] block of [processEmailJob]. *)
Definition processEmailJob_catch (data : EmailJobData.t) (error : Thrown)
  : Async EmailJobResult.t :=
  let emailId := EmailJobData.emailId data in
  let errorMessage := message_or error "Unknown error" in
  (* Get current email to check retry count *)
  let* email := Prisma.email_findUnique emailId in
  let retryCount := or_number (Email.retryCount <$> email) 0 + 1 in
  let maxRetries := or_number (Email.maxRetries <$> email) (Config.maxRetries cfg) in
  (if maxRetries <=? retryCount then
     (* Max retries reached, mark as FAILED *)
     Prisma.email_update emailId
       (Patch.mk (Some FAILED) None (Some errorMessage) (Some retryCount)
          None None None) ;;
     when (truthy (email ≫= Email.batchId))
       (Prisma.emailBatch_update (default "" (email ≫= Email.batchId))
          Prisma.incr_failedEmails)
   else
     (* Update retry count *)
     Prisma.email_update emailId
       (Patch.mk (Some SCHEDULED) None (Some errorMessage) (Some retryCount)
          None None None) ;;
     ret tt) ;;
  ret (EmailJobResult.mk false None None (Some errorMessage)).

(** [processEmailJob(job)], with [job.id] and [job.data]. *)
Definition processEmailJob (jobId : string) (data : EmailJobData.t)
  : Async EmailJobResult.t :=
  tryCatch (processEmailJob_try jobId data) (processEmailJob_catch data).

End WithConfig.
End Worker.

(** ** How BullMQ runs a processor

    The contract of the BullMQ [Worker] that [createEmailWorker] hands
    [processEmailJob] to: a job whose processor resolves is completed
    with the resolved value, whatever that value is; a job whose
    processor rejects has failed this attempt and is delivered again
    (after the backoff delay) while fewer than [attempts] attempts were
    made, and is moved to the failed set otherwise. *)

Module Bull.
Import Js.

Inductive JobState :=
  | Completed (returnvalue : EmailJobResult.t)
  | Failed (failedReason : Thrown)
  | Waiting.   (* delivered no further: the script of attempts ran out *)

Section WithConfig.
Variable cfg : Config.t.

(** Runs job [j]; [envs] gives the surroundings of each delivery in
    turn and [attemptsMade] counts the deliveries so far. *)
Fixpoint run (envs : list Env.t) (attemptsMade : Z) (j : Job.t) (w : World.t)
  : JobState * World.t :=
  match envs with
  | [] => (Waiting, w)
  | env :: envs' =>
      match Worker.processEmailJob cfg env (Job.id j) (Job.data j) w with
      | (Ok r, w') => (Completed r, w')
      | (Throw e, w') =>
          if attemptsMade + 1 <? Job.attempts j
          then run envs' (attemptsMade + 1) j w'
          else (Failed e, w')
      end
  end.

End WithConfig.
End Bull.

(** ** Coordinator ([email.controller.ts]) *)

Module Controller.
Import Js.

(** The JSON reply of a handler ([res.status(code).json(...)]). *)
Module Response.
Record t := mk {
  statusCode : Z;
  success : bool;
  error : option string;
  message : option string;
  (* batchId, totalEmails, scheduledEmails *)
  data : option (string * Z * list (string * Email.t));
}.
End Response.

(** The request body after [scheduleEmailSchema.parse]. *)
Module ScheduleRequest.
Record t := mk {
  subject : string;
  body : string;
  recipients : list string;
  startTime : Z;
  delayBetweenEmails : Z;
  hourlyLimit : Z;
  senderId : option string;
}.
End ScheduleRequest.

Section WithConfig.
Variable cfg : Config.t.
Variable env : Env.t.

Definition reply_error (code : Z) (msg : string) : Response.t :=
  Response.mk code false (Some msg) None None.

(** Sender resolution of [scheduleEmails]: the id to use, or the reply
    that ends the request. *)
Definition resolveSender (userId : string) (senderId : option string)
  : Async (string + Response.t) :=
  if negb (truthy senderId) then
    let* defaultSender := Prisma.sender_findFirst
      (fun s => String.eqb (Sender.userId s) userId
                && Sender.isActive s && Sender.isDefault s) in
    match defaultSender with
    | None =>
        let* anySender := Prisma.sender_findFirst
          (fun s => String.eqb (Sender.userId s) userId && Sender.isActive s) in
        match anySender with
        | None => ret (inr (reply_error 400
                     "No sender configured. Please add a sender email first."))
        | Some s => ret (inl (Sender.id s))
        end
    | Some s => ret (inl (Sender.id s))
    end
  else
    let id := default "" senderId in
    let* sender := Prisma.sender_findFirst
      (fun s => String.eqb (Sender.id s) id
                && String.eqb (Sender.userId s) userId && Sender.isActive s) in
    match sender with
    | None => ret (inr (reply_error 400 "Invalid or inactive sender"))
    | Some _ => ret (inl id)
    end.

(** Creation of the batch row and of one [SCHEDULED] row per recipient.
    The creations of [Promise.all] are run in index order, up to the
    first that rejects. *)
Definition createBatchAndEmails (userId : string) (req : ScheduleRequest.t)
    (senderIdToUse : string) (scheduledTimes : list Z)
  : Async (string * list (string * Email.t)) :=
  let n := Z.of_nat (length (ScheduleRequest.recipients req)) in
  let* (batchId, _) := Prisma.emailBatch_create env
    (EmailBatch.mk userId n n 0 0 (ScheduleRequest.startTime req)
       (ScheduleRequest.delayBetweenEmails req) (ScheduleRequest.hourlyLimit req)) in
  let* emails := mapM
    (fun '(index, recipient) =>
       match scheduledTimes !! index with
       | None => throw (JsError "Argument `scheduledAt` is missing.")
       | Some scheduledAt =>
           Prisma.email_create env
             (Email.mk userId (Some senderIdToUse) recipient
                (ScheduleRequest.subject req) (ScheduleRequest.body req)
                scheduledAt None SCHEDULED None 0 3 None None None
                (Some batchId) (Some (Z.of_nat index)))
       end)
    (imap (fun i r => (i, r)) (ScheduleRequest.recipients req)) in
  ret (batchId, emails).

(** The inner [try] of [scheduleEmails]: enqueue the jobs and write the
    job ids back. *)
Definition enqueueAndLink (userId senderIdToUse batchId : string)
    (emails : list (string * Email.t)) (scheduledTimes : list Z)
  : Async Response.t :=
  (* [scheduledTimes[index]] is there for every created row *)
  let jobsData :=
    imap (fun index '(id, email) =>
            (EmailJobData.mk id (Email.recipientEmail email) (Email.subject email)
               (Email.body email) (Some senderIdToUse) userId (Some batchId) 1,
             default 0 (scheduledTimes !! index),
             Z.of_nat index)) emails in
  let* jobIds := EmailQueue.addEmailJobs cfg env jobsData in
  mapM (fun '(index, (id, _)) =>
          Prisma.email_update id
            (Patch.mk None (jobIds !! index) None None None None None))
       (imap (fun i e => (i, e)) emails) ;;
  ret (Response.mk 201 true None
         (Some ("Successfully scheduled " +:+ pretty (length emails) +:+ " emails"))
         (Some (batchId, Z.of_nat (length emails), emails))).

(** The inner [catch (queueError)] of [scheduleEmails]. *)
Definition markBatchFailed (batchId : string) (queueError : Thrown)
  : Async Response.t :=
  Prisma.email_updateMany_batch batchId
    (Patch.mk (Some FAILED) None
       (Some (message_or queueError "Failed to add to queue (System Error)"))
       None None None None) ;;
  throw queueError.

(** The outer [catch (error)] of [scheduleEmails], past the [ZodError]
    test (no validation error is thrown after parsing). *)
Definition scheduleEmails_catch (error : Thrown) : Async Response.t :=
  let errorMessage :=
    match error with
    | JsError m =>
        if includes "Redis" m || includes "ECONNREFUSED" m
        then "Queue service unavailable. Please try again later."
        else if includes "Prisma" m || includes "database" m
        then "Database error. Please try again later."
        else m
    | JsOther => "Failed to schedule emails"
    end in
  ret (reply_error 500 errorMessage).

(** [scheduleEmails(req, res)] for the user [userId] and the parsed
    body [req]; the value is the reply written to [res].  Attachments
    are left out. *)
Definition scheduleEmails (userId : string) (req : ScheduleRequest.t)
  : Async Response.t :=
  tryCatch
    (let* sender := resolveSender userId (ScheduleRequest.senderId req) in
     match sender with
     | inr reply => ret reply
     | inl senderIdToUse =>
         if negb (truthy (Some senderIdToUse)) then
           ret (reply_error 500 "Internal error: Sender ID resolution failed")
         else
           let* scheduledTimes :=
             RateLimit.calculateScheduledTimes env
               (Z.of_nat (length (ScheduleRequest.recipients req)))
               (ScheduleRequest.startTime req)
               (ScheduleRequest.delayBetweenEmails req)
               (ScheduleRequest.hourlyLimit req)
               (Some senderIdToUse) in
           let* (batchId, emails) :=
             createBatchAndEmails userId req senderIdToUse scheduledTimes in
           tryCatch
             (enqueueAndLink userId senderIdToUse batchId emails scheduledTimes)
             (markBatchFailed batchId)
     end)
    scheduleEmails_catch.

(** [cancelEmail(req, res)] of [email.controller.ts]: deletes the row. *)
Definition cancelEmail (userId id : string) : Async Response.t :=
  tryCatch
    (let* email := Prisma.email_findUnique id in
     match email with
     | Some e =>
         if String.eqb (Email.userId e) userId then
           Prisma.email_delete id ;;
           ret (Response.mk 200 true None (Some "Email deleted successfully") None)
         else ret (reply_error 404 "Email not found")
     | None => ret (reply_error 404 "Email not found")
     end)
    (fun _ => ret (reply_error 500 "Failed to delete email")).

(** [cancelEmail(req, res)] of the compiled [dist/controllers/
    email.controller.js]: the earlier variant, which marks a
    [SCHEDULED] or [RATE_LIMITED] row [FAILED] instead of deleting it. *)
Definition cancelEmail_dist (userId id : string) : Async Response.t :=
  tryCatch
    (let* email := Prisma.email_findUnique id in
     match email with
     | Some e =>
         if String.eqb (Email.userId e) userId
            && (bool_decide (Email.status e = SCHEDULED)
                || bool_decide (Email.status e = RATE_LIMITED)) then
           Prisma.email_update id
             (Patch.mk (Some FAILED) None (Some "Cancelled by user")
                None None None None) ;;
           ret (Response.mk 200 true None (Some "Email cancelled successfully") None)
         else ret (reply_error 404 "Email not found or cannot be cancelled")
     | None => ret (reply_error 404 "Email not found or cannot be cancelled")
     end)
    (fun _ => ret (reply_error 500 "Failed to cancel email")).

End WithConfig.
End Controller.

(** ** The properties under study *)

(** Status transitions. *)
Module Legal.

(** The transitions of the message state machine between statuses, as
    enumerated (the deletion of a [SCHEDULED] row is not a status
    write). *)
Definition enumerated (a b : EmailStatus) : Prop :=
  (a = SCHEDULED /\ b = PROCESSING)
  \/ (a = PROCESSING /\ b = RATE_LIMITED)
  \/ (a = RATE_LIMITED /\ b = SCHEDULED)
  \/ (a = PROCESSING /\ b = SENT)
  \/ (a = PROCESSING /\ b = SCHEDULED)
  \/ (a = PROCESSING /\ b = FAILED).

(** The status writes of one job delivery: the write on dequeue, from
    whatever status the row has, and the writes that leave
    [PROCESSING]. *)
Definition worker_write (a b : EmailStatus) : Prop :=
  b = PROCESSING
  \/ (a = PROCESSING
      /\ (b = RATE_LIMITED \/ b = SENT \/ b = SCHEDULED \/ b = FAILED)).

(** The batch a row names, if it names one, exists. *)
Definition batch_linked (emailId : string) (w : World.t) : Prop :=
  forall e, World.emails w !! emailId = Some e ->
    Js.truthy (Email.batchId e) = true ->
    is_Some (World.emailBatches w !! default "" (Email.batchId e)).

(** The entries appended to the status log between [w] and [w']. *)
Definition log_extends (w w' : World.t) (new : list StatusWrite) : Prop :=
  World.statusLog w' = World.statusLog w ++ new.

End Legal.

(** What a computation keeps. *)
Module Frame.

(** [m] keeps [I], whether it resolves or rejects. *)
Definition preserves {A} (I : World.t -> Prop) (m : Async A) : Prop :=
  forall w, I w -> I (m w).2.

(** No row of [w] is lost or changed in [w']. *)
Definition rows_kept (w w' : World.t) : Prop :=
  forall id e, World.emails w !! id = Some e -> World.emails w' !! id = Some e.

(** [e'] is the row [e] with the columns that are set when the row is
    created as they were. *)
Definition same_content (e e' : Email.t) : Prop :=
  Email.userId e' = Email.userId e
  /\ Email.senderId e' = Email.senderId e
  /\ Email.recipientEmail e' = Email.recipientEmail e
  /\ Email.subject e' = Email.subject e
  /\ Email.body e' = Email.body e
  /\ Email.scheduledAt e' = Email.scheduledAt e
  /\ Email.maxRetries e' = Email.maxRetries e
  /\ Email.batchId e' = Email.batchId e
  /\ Email.batchIndex e' = Email.batchIndex e.

(** A row after the job ids were written back: as it was, but for the
    job id, which is the row's first-attempt job id if it was written. *)
Definition linked (id : string) (e0 e' : Email.t) : Prop :=
  same_content e0 e'
  /\ Email.status e' = Email.status e0
  /\ (Email.jobId e' = Email.jobId e0
      \/ Email.jobId e' = Some (EmailQueue.generateJobId id 1)).

(** Between [w] and [w'] no row was created or deleted, no row but
    [id] was written, the row [id] kept its content and its retry count
    did not go down, and the senders are as they were. *)
Definition only_row (id : string) (w w' : World.t) : Prop :=
  (forall id', id' <> id -> World.emails w' !! id' = World.emails w !! id')
  /\ option_Forall2
       (fun e e' => same_content e e' /\ Email.retryCount e <= Email.retryCount e')
       (World.emails w !! id) (World.emails w' !! id)
  /\ World.senders w' = World.senders w.

End Frame.

(** Invariants of rows. *)
Module Invariant.

(** A row cancelled by the user (the earlier [cancelEmail]). *)
Definition explicitly_cancelled (e : Email.t) : Prop :=
  Email.errorMessage e = Some "Cancelled by user".

(** A [FAILED] row has an error message. *)
Definition failed_has_error (e : Email.t) : Prop :=
  Email.status e = FAILED -> Email.errorMessage e <> None.

(** A [FAILED] row has used up its retries, unless it was cancelled. *)
Definition failed_exhausted (e : Email.t) : Prop :=
  Email.status e = FAILED ->
  Email.maxRetries e <= Email.retryCount e \/ explicitly_cancelled e.

(** The retry bound of a row: over a non-negative retry count, a
    [FAILED] row has used up its retries, unless it was cancelled. *)
Definition retry_bound (e : Email.t) : Prop :=
  0 <= Email.retryCount e /\ failed_exhausted e.

(** Every row of the store satisfies [P]. *)
Definition store_inv (P : Email.t -> Prop) (w : World.t) : Prop :=
  map_Forall (fun _ e => P e) (World.emails w).

End Invariant.

(** The counts a rate-limit check reads: from Redis, or, when the Redis
    read rejects, the [SENT] rows of the current local hour. *)
Module Counts.
Import Clock.

Definition globalCount (env : Env.t) (w : World.t) : Z :=
  if Env.redisUp env then
    default 0 (World.redis w !! RateLimit.getRateLimitKey env None)
  else
    match Prisma.email_count_sent None
            (getCurrentHourStart (Env.tz env) (Env.now env))
            (getNextHourStart (Env.tz env) (Env.now env)) w with
    | (Js.Ok n, _) => n
    | _ => 0
    end.

Definition senderCount (env : Env.t) (senderId : option string) (w : World.t) : Z :=
  if negb (Js.truthy senderId) then 0
  else if Env.redisUp env then
    default 0 (World.redis w !! RateLimit.getRateLimitKey env senderId)
  else
    match Prisma.email_count_sent senderId
            (getCurrentHourStart (Env.tz env) (Env.now env))
            (getNextHourStart (Env.tz env) (Env.now env)) w with
    | (Js.Ok n, _) => n
    | _ => 0
    end.

End Counts.

(** ** Sample data *)

Module Sample.

Definition cfg : Config.t := Config.mk 3 5000 100 50.

Definition transport_ok (_ : SendEmailOptions.t) (_ : option SMTPConfig.t)
  : SendEmailResult.t :=
  SendEmailResult.mk true (Some "<1@ethereal.email>") None None.

Definition transport_fail (_ : SendEmailOptions.t) (_ : option SMTPConfig.t)
  : SendEmailResult.t :=
  SendEmailResult.mk false None None (Some "read ECONNRESET").

Definition uuid (n : nat) : string := "uuid-" +:+ pretty n.

(** 2025-01-01T10:59:00Z. *)
Definition t_1059 : Z := 1735729140000.
(** 2025-01-01T11:00:05Z. *)
Definition t_1100 : Z := 1735729205000.

Definition mk_env (now tz : Z) (queueError : option Js.Thrown)
    (transport : SendEmailOptions.t -> option SMTPConfig.t -> SendEmailResult.t)
  : Env.t :=
  Env.mk now tz true queueError transport uuid (fun t => pretty t).

Definition env_ok : Env.t := mk_env t_1059 0 None transport_ok.
Definition env_fail : Env.t := mk_env t_1059 0 None transport_fail.
Definition env_later : Env.t := mk_env t_1100 0 None transport_ok.
(** The process in UTC+05:30. *)
Definition env_ist : Env.t := mk_env t_1059 19800000 None transport_ok.
(** The process in UTC-05:00. *)
Definition env_est : Env.t := mk_env t_1059 (-18000000) None transport_ok.
(** The process in UTC+05:30, at 11:00:05Z. *)
Definition env_ist_later : Env.t := mk_env t_1100 19800000 None transport_ok.
Definition env_queue_down : Env.t :=
  mk_env t_1059 0 (Some (Js.JsError "connect ECONNREFUSED 127.0.0.1:6379"))
    transport_ok.

Definition sender1 : Sender.t :=
  Sender.mk "s1" "u1" "me@example.com" "Me" None None None None true true.

Definition email1 : Email.t :=
  Email.mk "u1" (Some "s1") "a@example.com" "Hello" "<p>Hi</p>" t_1059 None
    SCHEDULED None 0 3 None None None (Some "b1") (Some 0).

Definition batch1 : EmailBatch.t := EmailBatch.mk "u1" 1 1 0 0 t_1059 30 100.

(** One scheduled message [m1] of batch [b1]. *)
Definition world1 : World.t :=
  World.mk {["m1" := email1]} {["b1" := batch1]} [sender1] ∅ ∅ [] 0 [] [].

(** As [world1], with the global counter of the hour at the limit. *)
Definition world1_full : World.t :=
  World.set_redis (fun _ => {[(None, 482146) := 100]}) world1.

(** As [world1], with [m1] at its last retry. *)
Definition world1_last_try : World.t :=
  World.set_emails
    (fun _ => {["m1" :=
       Email.mk "u1" (Some "s1") "a@example.com" "Hello" "<p>Hi</p>" t_1059 None
         SCHEDULED (Some "read ECONNRESET") 2 3 None None None (Some "b1")
         (Some 0)]}) world1.

(** A user with a sender and no message yet. *)
Definition world0 : World.t :=
  World.mk ∅ ∅ [sender1] ∅ ∅ [] 0 [] [].

Definition data1 : EmailJobData.t :=
  EmailJobData.mk "m1" "a@example.com" "Hello" "<p>Hi</p>" (Some "s1") "u1"
    (Some "b1") 1.

Definition job1 : Job.t := Job.mk "email-m1-attempt-1" data1 0 0 3.

Definition data1_again : EmailJobData.t :=
  EmailJobData.mk "m1" "a@example.com" "Hello" "<p>Hi</p>" (Some "s1") "u1"
    (Some "b1") 2.

Definition request2 : Controller.ScheduleRequest.t :=
  Controller.ScheduleRequest.mk "Hello" "<p>Hi</p>"
    ["a@example.com"; "b@example.com"] t_1059 30 2 None.

End Sample.

(** ** Further functions: counter upkeep and the read side *)

(** The rest of [ratelimit.service.ts]. *)
Module Upkeep.
Import Js Clock.

Section WithEnv.
Variable env : Env.t.

(** [Math.ceil(a / b)] for integers and [b > 0]. *)
Definition ceil_div (a b : Z) : Z := - ((- a) / b).

(** [getSecondsUntilNextHour()]: [nextHour.setHours(getHours() + 1, 0, 0,
    0)] is the start of the next local hour. *)
Definition getSecondsUntilNextHour : Z :=
  let now := Env.now env in
  let nextHour := setHoursPlus1 (setMinutes000 (Env.tz env) now) in
  ceil_div (nextHour - now) MS_PER_SECOND.

(** The [ttl] that [incrementRateLimit] gives both counter keys. *)
Definition counter_ttl : Z := getSecondsUntilNextHour + 60.



End WithEnv.
End Upkeep.

(** The read handlers of [email.controller.ts]. *)
Module Queries.
Import Js.

Module EmailStats.
Record t := mk {
  scheduled : Z;
  processing : Z;
  sent : Z;
  failed : Z;
  rateLimited : Z;
  total : Z;
}.
End EmailStats.

Module PaginationInfo.
Record t := mk {
  page : Z;
  limit : Z;
  total : Z;
  totalPages : Z;
  hasMore : bool;
}.
End PaginationInfo.

(** The reply of a list handler: the rows of the page and the
    pagination block. *)
Module ListReply.
Record t := mk {
  statusCode : Z;
  success : bool;
  data : list (string * Email.t);
  pagination : option PaginationInfo.t;
}.
End ListReply.

(** [prisma.email.count({ where })]. *)
Definition email_count (whereClause : Email.t -> bool) : Async Z :=
  fun w =>
    (Ok (Z.of_nat (length (List.filter (fun kv : string * Email.t => whereClause kv.2)
                             (map_to_list (World.emails w))))), w).

(** [prisma.email.findMany({ where, orderBy, skip, take })].  [orderBy]
    stands for the order in which the database returns the matching
    rows. *)
Definition email_findMany (whereClause : Email.t -> bool)
    (orderBy : list (string * Email.t) -> list (string * Email.t))
    (skip take : Z) : Async (list (string * Email.t)) :=
  fun w =>
    (Ok (List.firstn (Z.to_nat take)
           (List.skipn (Z.to_nat skip)
              (orderBy (List.filter (fun kv : string * Email.t => whereClause kv.2)
                          (map_to_list (World.emails w)))))), w).

Definition has_status (statuses : list EmailStatus) (e : Email.t) : bool :=
  bool_decide (Email.status e ∈ statuses).

(** [getEmailStats(req, res)]: the six numbers of the reply. *)
Definition getEmailStats (userId : string) : Async EmailStats.t :=
  let of_status s :=
    email_count (fun e => String.eqb (Email.userId e) userId
                          && bool_decide (Email.status e = s)) in
  let* scheduled := of_status SCHEDULED in
  let* processing := of_status PROCESSING in
  let* sent := of_status SENT in
  let* failed := of_status FAILED in
  let* rateLimited := of_status RATE_LIMITED in
  ret (EmailStats.mk scheduled processing sent failed rateLimited
         (scheduled + processing + sent + failed + rateLimited)).

(** The pagination block of the list handlers. *)
Definition pagination (page limit total : Z) : PaginationInfo.t :=
  PaginationInfo.mk page limit total (Upkeep.ceil_div total limit)
    (page * limit <? total).

(** The body shared by [getScheduledEmails] and [getSentEmails]: the
    rows of the user in one of [statuses], page [page] of size [limit]. *)
Definition listEmails (statuses : list EmailStatus)
    (orderBy : list (string * Email.t) -> list (string * Email.t))
    (userId : string) (page limit : Z) : Async ListReply.t :=
  let whereClause e := String.eqb (Email.userId e) userId && has_status statuses e in
  tryCatch
    (let* emails := email_findMany whereClause orderBy ((page - 1) * limit) limit in
     let* total := email_count whereClause in
     ret (ListReply.mk 200 true emails (Some (pagination page limit total))))
    (fun _ => ret (ListReply.mk 500 false [] None)).

(** [getScheduledEmails(req, res)] for the parsed query. *)
Definition getScheduledEmails := listEmails [SCHEDULED; PROCESSING; RATE_LIMITED].

(** [getSentEmails(req, res)] for the parsed query. *)
Definition getSentEmails := listEmails [SENT; FAILED].

(** [getEmailById(req, res)]: the row, or the 404 reply. *)
Definition getEmailById (userId id : string) : Async (option Email.t) :=
  let* email := Prisma.email_findUnique id in
  match email with
  | Some e => if String.eqb (Email.userId e) userId then ret (Some e) else ret None
  | None => ret None
  end.

End Queries.

(** * Proofs *)

(** * Facts about the clock *)

Module ClockFacts.
Import Clock.

Section LocalZone.
Variable tz : Z.
Local Abbreviation floor := (setMinutes000 tz).

Lemma floor_div t : floor t = MS_PER_HOUR * ((t + tz) / MS_PER_HOUR) - tz.
Proof.
  unfold setMinutes000, MS_PER_HOUR.
  pose proof (Z.div_mod (t + tz) 3600000). lia.
Qed.

Lemma floor_bounds t : floor t <= t < floor t + MS_PER_HOUR.
Proof.
  unfold setMinutes000, MS_PER_HOUR.
  pose proof (Z.mod_pos_bound (t + tz) 3600000). lia.
Qed.

Lemma floor_unique h k t :
  h = MS_PER_HOUR * k - tz -> h <= t < h + MS_PER_HOUR -> floor t = h.
Proof.
  intros -> Ht. rewrite floor_div. unfold MS_PER_HOUR in *.
  assert ((t + tz) / 3600000 = k) as ->; [|lia].
  symmetry. apply (Z.div_unique_pos _ _ _ (t + tz - 3600000 * k)); lia.
Qed.

Lemma aligned_div h : hour_aligned tz h -> h = MS_PER_HOUR * ((h + tz) / MS_PER_HOUR) - tz.
Proof. unfold hour_aligned. intros H. rewrite <- floor_div. congruence. Qed.

Lemma floor_aligned t : hour_aligned tz (floor t).
Proof.
  unfold hour_aligned.
  apply (floor_unique _ ((t + tz) / MS_PER_HOUR)); [apply floor_div|].
  unfold MS_PER_HOUR. lia.
Qed.

Lemma floor_in_window h t :
  hour_aligned tz h -> h <= t < h + MS_PER_HOUR -> floor t = h.
Proof. intros Hh Ht. eapply floor_unique; [by apply aligned_div|done]. Qed.

Lemma floor_mono a b : a <= b -> floor a <= floor b.
Proof.
  intros Hab. rewrite !floor_div. unfold MS_PER_HOUR.
  pose proof (Z.div_le_mono (a + tz) (b + tz) 3600000). lia.
Qed.

Lemma floor_next t : floor (floor t + MS_PER_HOUR) = floor t + MS_PER_HOUR.
Proof.
  apply (floor_unique _ ((t + tz) / MS_PER_HOUR + 1)).
  - rewrite floor_div. lia.
  - unfold MS_PER_HOUR. lia.
Qed.

Lemma floor_gap a b : floor a < floor b -> floor a + MS_PER_HOUR <= floor b.
Proof. rewrite !floor_div. unfold MS_PER_HOUR. lia. Qed.

Lemma in_window_floor h t :
  hour_aligned tz h -> in_window h t = true -> floor t = h.
Proof.
  unfold in_window. intros Hh Hw. apply floor_in_window; [done|].
  apply andb_true_iff in Hw as [?%Z.leb_le ?%Z.ltb_lt]. lia.
Qed.

Lemma in_window_self t : in_window (floor t) t = true.
Proof.
  unfold in_window. pose proof (floor_bounds t).
  apply andb_true_iff. split; [apply Z.leb_le | apply Z.ltb_lt]; lia.
Qed.

Lemma count_in_nil h : count_in h [] = 0.
Proof. reflexivity. Qed.

Lemma count_in_snoc h l t :
  count_in h (l ++ [t]) = count_in h l + (if in_window h t then 1 else 0).
Proof.
  unfold count_in. rewrite List.filter_app, length_app. simpl.
  destruct (in_window h t); simpl; lia.
Qed.

Lemma count_in_nonneg h l : 0 <= count_in h l.
Proof. unfold count_in. lia. Qed.

(** No instant of [l] reaches the window of [h]. *)
Lemma count_in_before h l :
  Forall (fun x => x < h) l -> count_in h l = 0.
Proof.
  unfold count_in. induction 1 as [|x l Hx _ IH]; [done|]. simpl.
  unfold in_window at 1. destruct (h <=? x) eqn:E; [apply Z.leb_le in E; lia|].
  simpl. exact IH.
Qed.

End LocalZone.

(** A whole-hour offset rounds like UTC. *)
Lemma floor_whole_hour k t :
  setMinutes000 (MS_PER_HOUR * k) t = setMinutes000 0 t.
Proof.
  unfold setMinutes000. rewrite Z.add_0_r.
  replace (t + MS_PER_HOUR * k) with (t + k * MS_PER_HOUR) by lia.
  by rewrite Z.mod_add.
Qed.

(** Two offsets that differ by whole hours round alike. *)
Lemma floor_shift tz k t :
  setMinutes000 (tz + MS_PER_HOUR * k) t = setMinutes000 tz t.
Proof.
  unfold setMinutes000.
  replace (t + (tz + MS_PER_HOUR * k)) with (t + tz + k * MS_PER_HOUR) by lia.
  by rewrite Z.mod_add.
Qed.

End ClockFacts.

(** * The batch planner *)

Module PlannerFacts.
Import Clock Planner ClockFacts.

Section WithZone.
Variable tz : Z.
Variables delay cap : Z.
Hypothesis delay_nonneg : 0 <= delay.
Hypothesis cap_pos : 1 <= cap.
Local Abbreviation floor := (setMinutes000 tz).

Lemma plan_inv_init startTime :
  plan_inv tz delay cap [] (mkPlanState startTime 0 (floor startTime)).
Proof.
  split; simpl; try done.
  - intros pre a H. by destruct pre.
  - intros h _. rewrite count_in_nil. lia.
Qed.

(** After the limit check the bucket has room and the cursor has not
    moved back. *)
Lemma limit_check_spec acc st :
  plan_inv tz delay cap acc st ->
  let st1 := limit_check tz cap st in
  currentTime st <= currentTime st1
  /\ currentHourStart st1 = floor (currentTime st1)
  /\ emailsInCurrentHour st1 = count_in (currentHourStart st1) acc
  /\ emailsInCurrentHour st1 < cap
  /\ (cap <= emailsInCurrentHour st ->
      currentTime st1 = currentHourStart st + MS_PER_HOUR)
  /\ (emailsInCurrentHour st < cap -> currentTime st1 = currentTime st).
Proof.
  intros I. unfold limit_check. pose proof (floor_bounds tz (currentTime st)) as Hb.
  destruct (Z.leb_spec cap (emailsInCurrentHour st)) as [Hfull|Hroom]; simpl.
  - unfold setHoursPlus1. rewrite (inv_hour _ _ _ _ _ I), floor_next.
    repeat split; try lia.
    symmetry. apply count_in_before.
    eapply Forall_impl; [apply (inv_below _ _ _ _ _ I)|]. simpl. intros x Hx. lia.
  - repeat split; try lia; apply I.
Qed.

Lemma lookup_snoc_last {A} (l : list A) x : (l ++ [x]) !! length l = Some x.
Proof. by rewrite lookup_app_r, Nat.sub_diag by lia. Qed.

Lemma plan_step_inv acc st :
  plan_inv tz delay cap acc st ->
  plan_inv tz delay cap (acc ++ [(plan_step tz delay cap st).1])
    (plan_step tz delay cap st).2.
Proof.
  intros I. unfold plan_step. simpl.
  destruct (limit_check_spec acc st I) as (Hle & Hhs & Hcnt & Hroom & Hjump & Hstay).
  set (st1 := limit_check tz cap st) in *.
  set (t := currentTime st1) in *.
  assert (Hbelow : Forall (fun x => x <= t) acc).
  { eapply Forall_impl; [apply (inv_below _ _ _ _ _ I)|]. simpl. intros; lia. }
  pose proof (floor_bounds tz t) as Hbt.
  change MS_PER_SECOND with 1000 in *.
  assert (Hcap' : forall h, hour_aligned tz h -> count_in h (acc ++ [t]) <= cap).
  { intros h Hh. rewrite count_in_snoc.
    destruct (in_window h t) eqn:Hw.
    - apply (in_window_floor tz) in Hw; [|done]. subst h.
      rewrite <- Hhs, <- Hcnt. lia.
    - pose proof (inv_cap _ _ _ _ _ I h Hh). lia. }
  assert (Hmono' : forall (i j : nat) a b, (i <= j)%nat ->
             (acc ++ [t]) !! i = Some a -> (acc ++ [t]) !! j = Some b -> a <= b).
  { intros i j a b Hij Ha Hb.
    apply lookup_snoc_Some in Hb as [[Hj Hb]|[Hj Hb]].
    - rewrite lookup_app_l in Ha by lia. exact (inv_mono _ _ _ _ _ I i j a b Hij Ha Hb).
    - subst b. apply lookup_snoc_Some in Ha as [[Hi Ha]|[Hi Ha]]; [|lia].
      rewrite Forall_forall in Hbelow. apply Hbelow.
      eapply list_elem_of_lookup_2. done. }
  assert (Hnext' : forall (i : nat) a b,
             (acc ++ [t]) !! i = Some a -> (acc ++ [t]) !! S i = Some b ->
             next_ok tz delay cap (take (S i) (acc ++ [t])) a b).
  { intros i a b Ha Hb.
    apply lookup_snoc_Some in Hb as [[Hj Hb]|[Hj Hb]].
    - rewrite lookup_app_l in Ha by lia.
      rewrite take_app_le by lia. by apply (inv_next _ _ _ _ _ I).
    - subst b. rewrite take_app_length' by lia.
      rewrite lookup_app_l in Ha by lia.
      assert (exists pre, acc = pre ++ [a]) as [pre Hpre].
      { destruct acc as [|x acc'] using rev_ind; [simpl in Hj; lia|].
        rewrite length_app in Hj. simpl in Hj.
        rewrite lookup_app_r in Ha by lia.
        replace (i - length acc')%nat with 0%nat in Ha by lia.
        simpl in Ha. injection Ha as ->. by exists acc'. }
      destruct (inv_last _ _ _ _ _ I pre a Hpre) as [Hct Hlast].
      unfold next_ok. change MS_PER_SECOND with 1000 in *.
      pose proof (inv_hour _ _ _ _ _ I) as Hh0.
      pose proof (inv_count _ _ _ _ _ I) as Hc0.
      pose proof (floor_mono tz a (currentTime st) ltac:(lia)) as Hfm.
      pose proof (floor_bounds tz (currentTime st)) as Hb0.
      pose proof (floor_bounds tz a) as Hba.
      destruct (Z.le_gt_cases cap (emailsInCurrentHour st)) as [Hfull|Hfree].
      + specialize (Hjump Hfull).
        assert (floor t = floor (currentTime st) + MS_PER_HOUR) as Hft.
        { fold t in Hjump. rewrite Hjump, Hh0. apply floor_next. }
        split; [|split].
        * intros Heq. lia.
        * intros Hc Hsame. rewrite <- Hct in Hsame. fold t in Hjump.
          split; [lia|]. unfold hour_aligned. rewrite Hft. lia.
        * right. fold t in Hjump. rewrite Hjump, Hh0.
          destruct (Z.eq_dec (floor (currentTime st)) (floor a)) as [->|Hne]; [done|].
          (* the delay crossed an hour: the bucket was reset, so it is not full *)
          exfalso.
          assert (count_in (currentHourStart st) acc = 0); [|lia].
          apply count_in_before.
          pose proof (floor_gap tz a (currentTime st) ltac:(lia)).
          eapply Forall_impl; [exact Hlast|]. simpl. intros x Hx. lia.
      + specialize (Hstay Hfree). fold t in Hstay.
        split; [|split].
        * intros _. lia.
        * intros Hc Hsame. exfalso. rewrite <- Hct in Hsame.
          rewrite Hc0, Hh0, Hsame, Hc in Hfree. lia.
        * left. lia. }
  unfold advance. fold st1. fold t. change MS_PER_SECOND with 1000.
  pose proof (floor_mono tz t (t + delay * 1000) ltac:(lia)) as Hfm.
  pose proof (floor_bounds tz (t + delay * 1000)) as Hbn.
  destruct (Z.ltb_spec (currentHourStart st1) (floor (t + delay * 1000)))
    as [Hcross|Hsame]; split; simpl; try done.
  - symmetry. apply count_in_before. rewrite Hhs in Hcross.
    pose proof (floor_gap tz _ _ Hcross).
    apply Forall_app. split; [|repeat constructor; lia].
    eapply Forall_impl; [exact Hbelow|]. simpl. intros; lia.
  - apply Forall_app. split; [|repeat constructor; lia].
    eapply Forall_impl; [exact Hbelow|]. simpl. intros; lia.
  - intros pre a Hpre. apply app_inj_tail in Hpre as [_ <-]. split; [done|].
    apply Forall_app. split; [exact Hbelow|repeat constructor; lia].
  - lia.
  - rewrite count_in_snoc, Hhs, in_window_self. rewrite Hhs in Hcnt. lia.
  - apply Forall_app. split; [|repeat constructor; lia].
    eapply Forall_impl; [exact Hbelow|]. simpl. intros; lia.
  - intros pre a Hpre. apply app_inj_tail in Hpre as [_ <-]. split; [done|].
    apply Forall_app. split; [exact Hbelow|repeat constructor; lia].
Qed.

Lemma plan_loop_inv n : forall st acc,
  plan_inv tz delay cap acc st ->
  exists st', plan_inv tz delay cap (plan_loop tz n delay cap st acc) st'.
Proof.
  induction n as [|n IH]; intros st acc I; cbn [plan_loop].
  - by exists st.
  - pose proof (plan_step_inv acc st I) as I'.
    destruct (plan_step tz delay cap st) as [t st']. apply IH. exact I'.
Qed.

End WithZone.

Lemma plan_loop_length tz delay cap n : forall st acc,
  length (plan_loop tz n delay cap st acc) = (length acc + n)%nat.
Proof.
  induction n as [|n IH]; intros st acc; cbn [plan_loop]; [lia|].
  destruct (plan_step tz delay cap st) as [t st'].
  rewrite IH, length_app. simpl. lia.
Qed.

(** The invariant holds of the array the planner returns. *)
Lemma calculateScheduledTimes_inv tz count startTime delay cap senderId :
  0 <= delay -> 1 <= cap ->
  exists st, plan_inv tz delay cap
    (calculateScheduledTimes tz count startTime delay cap senderId) st.
Proof.
  intros Hd Hc. unfold calculateScheduledTimes.
  apply plan_loop_inv; try done. apply plan_inv_init; done.
Qed.

(** The plan is the same in every zone at a whole-hour offset. *)
Lemma plan_loop_whole_hour k delay cap n : forall st acc,
  plan_loop (MS_PER_HOUR * k) n delay cap st acc = plan_loop 0 n delay cap st acc.
Proof.
  induction n as [|n IH]; intros st acc; simpl; [done|].
  unfold plan_step, limit_check, advance. rewrite !floor_whole_hour.
  destruct (cap <=? emailsInCurrentHour st); simpl; rewrite ?floor_whole_hour;
    apply IH.
Qed.

Lemma calculateScheduledTimes_whole_hour k count startTime delay cap senderId :
  calculateScheduledTimes (MS_PER_HOUR * k) count startTime delay cap senderId
  = calculateScheduledTimes 0 count startTime delay cap senderId.
Proof.
  unfold calculateScheduledTimes.
  by rewrite plan_loop_whole_hour, floor_whole_hour.
Qed.

(** The plan is the same in two zones whose offsets differ by whole
    hours. *)
Lemma plan_loop_shift tz k delay cap n : forall st acc,
  plan_loop (tz + MS_PER_HOUR * k) n delay cap st acc
  = plan_loop tz n delay cap st acc.
Proof.
  induction n as [|n IH]; intros st acc; simpl; [done|].
  unfold plan_step, limit_check, advance. rewrite !floor_shift.
  destruct (cap <=? emailsInCurrentHour st); simpl; rewrite ?floor_shift;
    apply IH.
Qed.

Lemma calculateScheduledTimes_shift tz k count startTime delay cap senderId :
  calculateScheduledTimes (tz + MS_PER_HOUR * k) count startTime delay cap senderId
  = calculateScheduledTimes tz count startTime delay cap senderId.
Proof.
  unfold calculateScheduledTimes.
  by rewrite plan_loop_shift, floor_shift.
Qed.

End PlannerFacts.


(** * The rate limiter *)

Module RateLimitFacts.
Import Js Clock RateLimit.

Section WithConfig.
Variable cfg : Config.t.
Variable env : Env.t.

Lemma email_count_sent_run senderId gte lt w :
  exists n, Prisma.email_count_sent senderId gte lt w = (Ok n, w) /\ 0 <= n.
Proof. unfold Prisma.email_count_sent. eexists. split; [reflexivity|lia]. Qed.

(** The check resolves, writes nothing, and reports the quota of the
    counts it read. *)
Lemma checkRateLimit_run senderId w :
  let remaining :=
    quota cfg senderId (Counts.globalCount env w) (Counts.senderCount env senderId w) in
  checkRateLimit cfg env senderId w =
    (Ok (RateLimitCheck.mk (0 <? remaining) remaining
           (getNextHourStart (Env.tz env) (Env.now env))
           (if 0 <? remaining then Env.now env
            else getNextHourStart (Env.tz env) (Env.now env))), w).
Proof.
  unfold checkRateLimit, checkRateLimitFromDB, Counts.globalCount,
    Counts.senderCount, redis_get, tryCatch, bind, ret, throw,
    Prisma.email_count_sent.
  destruct (Env.redisUp env); destruct (truthy senderId); reflexivity.
Qed.

Lemma getNextAvailableSlot_run senderId w :
  exists t, getNextAvailableSlot cfg env senderId w = (Ok t, w).
Proof.
  unfold getNextAvailableSlot, bind. rewrite checkRateLimit_run. simpl.
  destruct (0 <? _); by eexists.
Qed.

End WithConfig.
End RateLimitFacts.


(** * The worker *)

Module WorkerFacts.
Import Js.

Section WithConfig.
Variable cfg : Config.t.
Variable env : Env.t.

Lemma rescheduleJob_run data t w :
  EmailQueue.rescheduleJob cfg env data t w =
  match Env.queueError env with
  | Some e => (Throw e, w)
  | None =>
      (Ok (EmailQueue.generateJobId (EmailJobData.emailId data)
             (EmailJobData.attemptNumber data + 1)),
       World.set_queue
         (EmailQueue.enqueue
            (EmailQueue.make_job cfg env
               (EmailJobData.mk (EmailJobData.emailId data)
                  (EmailJobData.recipientEmail data) (EmailJobData.subject data)
                  (EmailJobData.body data) (EmailJobData.senderId data)
                  (EmailJobData.userId data) (EmailJobData.batchId data)
                  (EmailJobData.attemptNumber data + 1)) t 0)) w)
  end.
Proof.
  unfold EmailQueue.rescheduleJob, EmailQueue.addEmailJob, EmailQueue.queue_add.
  by destruct (Env.queueError env).
Qed.

Lemma resolveFrom_run senderId w :
  exists x, Worker.resolveFrom senderId w = (Ok x, w).
Proof.
  unfold Worker.resolveFrom, bind, ret, Prisma.sender_findUnique.
  destruct (truthy senderId); [|by eexists].
  destruct (find _ _); by eexists.
Qed.

Lemma incrementRateLimit_run senderId w :
  exists counters redis,
    RateLimit.incrementRateLimit env senderId w =
    (Ok tt, World.mk (World.emails w) (World.emailBatches w) (World.senders w)
              counters redis (World.queue w) (World.nextUuid w)
              (World.outbox w) (World.statusLog w)).
Proof.
  unfold RateLimit.incrementRateLimit, RateLimit.updateDBRateLimit,
    RateLimit.redis_incr, Prisma.rateLimitCounter_upsert, tryCatch, bind, ret,
    throw, when, modify.
  destruct w. destruct (Env.redisUp env); cbn.
  - destruct (truthy senderId); cbn; eexists _, _; reflexivity.
  - eexists _, _. reflexivity.
Qed.

(** A job whose row is gone: both updates reject and nothing is
    written. *)
Lemma processEmailJob_missing jobId data w :
  World.emails w !! EmailJobData.emailId data = None ->
  Worker.processEmailJob cfg env jobId data w = (Throw Prisma.P2025, w).
Proof.
  intros Hnone.
  unfold Worker.processEmailJob, Worker.processEmailJob_try,
    Worker.processEmailJob_catch, tryCatch, bind, Prisma.email_update,
    Prisma.email_findUnique.
  rewrite Hnone. cbn. rewrite Hnone.
  destruct (_ <=? _); cbn; by rewrite Hnone.
Qed.

(** What a patch leaves of a row. *)
Lemma apply_status p e :
  Email.status (Patch.apply p e) = default (Email.status e) (Patch.status p).
Proof. reflexivity. Qed.
Lemma apply_batchId p e : Email.batchId (Patch.apply p e) = Email.batchId e.
Proof. reflexivity. Qed.
Lemma apply_maxRetries p e : Email.maxRetries (Patch.apply p e) = Email.maxRetries e.
Proof. reflexivity. Qed.
Lemma apply_retryCount p e :
  Email.retryCount (Patch.apply p e) = default (Email.retryCount e) (Patch.retryCount p).
Proof. reflexivity. Qed.
Lemma apply_errorMessage p e :
  Email.errorMessage (Patch.apply p e)
  = Patch.over (Patch.errorMessage p) (Email.errorMessage e).
Proof. reflexivity. Qed.

(** Symbolic execution of [processEmailJob] on a store given by its
    fields: unfold the sequencing, run the calls that write no row by
    their lemmas, and branch on each test. *)
Ltac unfold_worker :=
  unfold Worker.processEmailJob, Worker.processEmailJob_try,
    Worker.processEmailJob_catch, Worker.sendEmail, tryCatch, bind, ret, throw,
    when, Prisma.email_update, Prisma.email_findUnique, Prisma.emailBatch_update,
    Prisma.log_status,
    World.set_emails, World.set_statusLog, World.set_outbox, World.set_queue,
    World.set_emailBatches.

Ltac exec_simpl :=
  cbn beta iota zeta delta
      [fst snd negb World.emails World.emailBatches World.senders
       World.rateLimitCounters World.redis World.queue World.nextUuid
       World.outbox World.statusLog RateLimitCheck.allowed
       RateLimitCheck.remaining RateLimitCheck.nextAvailableSlot
       Patch.status Patch.retryCount Patch.errorMessage Patch.over
       mbind option_bind fmap option_fmap option_map default from_option id].

Ltac exec_step :=
  first
  [ rewrite RateLimitFacts.checkRateLimit_run
  | rewrite rescheduleJob_run
  | rewrite lookup_insert_eq
  | rewrite apply_batchId
  | match goal with
    | |- context [RateLimit.getNextAvailableSlot ?c ?e ?s ?w] =>
        let t := fresh "t" in let H := fresh "H" in
        destruct (RateLimitFacts.getNextAvailableSlot_run c e s w) as [t H];
        rewrite H; clear H
    | |- context [Worker.resolveFrom ?s ?w] =>
        let x := fresh "x" in let H := fresh "H" in
        destruct (resolveFrom_run s w) as [[[? ?] ?] H]; rewrite H; clear H
    | |- context [RateLimit.incrementRateLimit ?e ?s ?w] =>
        let H := fresh "H" in
        destruct (incrementRateLimit_run s w) as (? & ? & H); rewrite H; clear H
    end
  | progress exec_simpl
  | match goal with
    | |- context [if negb ?c then _ else _] => destruct c eqn:?
    | |- context [if ?c then _ else _] => destruct c eqn:?
    | |- context [match Env.queueError ?e with _ => _ end] =>
        destruct (Env.queueError e) eqn:?
    | |- context [match ?m !! ?k with _ => _ end] => destruct (m !! k) eqn:?
    end
  ].

Lemma or_number_self n : or_number (Some n) 0 = n.
Proof. unfold or_number. destruct (Z.eqb_spec n 0); congruence. Qed.

(** With the queue reachable and the batch of the row in place, every
    status write of one delivery is the dequeue write or leaves
    [PROCESSING]. *)
Lemma processEmailJob_writes jobId data w :
  Env.queueError env = None ->
  Legal.batch_linked (EmailJobData.emailId data) w ->
  exists new,
    Legal.log_extends w (Worker.processEmailJob cfg env jobId data w).2 new
    /\ Forall (fun sw => sw_id sw = EmailJobData.emailId data
                         /\ Legal.worker_write (sw_from sw) (sw_to sw)) new.
Proof.
  intros Hq Hb.
  destruct (World.emails w !! EmailJobData.emailId data) as [e|] eqn:He.
  2: { rewrite processEmailJob_missing by done. exists []. split; [|constructor].
       unfold Legal.log_extends. simpl. by rewrite app_nil_r. }
  specialize (Hb e He).
  destruct w as [em bt sd rc rd q n ob sl]. cbn in He, Hb.
  unfold Legal.log_extends. unfold_worker.
  exec_simpl. rewrite He.
  repeat (first [rewrite Hq | exec_step]).
  all: try (match goal with
            | Hl : _ -> is_Some None |- _ =>
                destruct Hl as [? ?]; [done | discriminate]
            end).
  all: rewrite <- ?app_assoc; eexists; (split; [reflexivity|]).
  all: repeat match goal with |- Forall _ _ => constructor end.
  all: unfold Legal.worker_write; rewrite ?apply_status.
  all: cbn [sw_id sw_from sw_to default from_option id Patch.status].
  all: tauto.
Qed.

(** The write on dequeue has no guard: whatever the status of the row,
    the first status write of a delivery takes it to [PROCESSING]. *)
Lemma processEmailJob_dequeue_write jobId data w e :
  World.emails w !! EmailJobData.emailId data = Some e ->
  exists rest,
    World.statusLog (Worker.processEmailJob cfg env jobId data w).2
    = World.statusLog w
      ++ mkStatusWrite (EmailJobData.emailId data) (Email.status e) PROCESSING
         :: rest.
Proof.
  intros He. destruct w as [em bt sd rc rd q n ob sl]. cbn in He.
  unfold_worker. exec_simpl. rewrite He.
  repeat (first [exec_step | progress unfold ret, World.set_queue]).
  all: cbn [World.statusLog snd]; rewrite <- ?app_assoc; cbn [app];
       eexists; reflexivity.
Qed.

(** One delivery keeps "a [FAILED] row has an error message": every
    write of [FAILED] carries the message, and no write clears it. *)
Lemma processEmailJob_failed_has_error jobId data w :
  Invariant.store_inv Invariant.failed_has_error w ->
  Invariant.store_inv Invariant.failed_has_error
    (Worker.processEmailJob cfg env jobId data w).2.
Proof.
  intros Hinv.
  destruct (World.emails w !! EmailJobData.emailId data) as [e|] eqn:He.
  2: { by rewrite processEmailJob_missing. }
  destruct w as [em bt sd rc rd q n ob sl].
  unfold Invariant.store_inv in *. cbn in He, Hinv.
  unfold_worker. exec_simpl. rewrite He.
  repeat (first [rewrite apply_retryCount | rewrite apply_maxRetries
                | rewrite or_number_self | exec_step]).
  all: cbn [World.emails snd]; rewrite ?insert_insert_eq;
       apply map_Forall_insert_2; [|exact Hinv].
  all: unfold Invariant.failed_has_error;
       rewrite ?apply_status, ?apply_errorMessage;
       cbn [Patch.status Patch.errorMessage Patch.over
            default from_option id].
  all: intros Hst; first [discriminate Hst | discriminate].
Qed.

(** One delivery keeps the retry bound: the retry count only rises, and
    [FAILED] is written only when it has reached the limit. *)
Lemma processEmailJob_retry_bound jobId data w :
  Invariant.store_inv Invariant.retry_bound w ->
  Invariant.store_inv Invariant.retry_bound
    (Worker.processEmailJob cfg env jobId data w).2.
Proof.
  intros Hinv.
  destruct (World.emails w !! EmailJobData.emailId data) as [e|] eqn:He.
  2: { by rewrite processEmailJob_missing. }
  pose proof (map_Forall_lookup_1 _ _ _ _ Hinv He) as (Hrc & Hexh).
  destruct w as [em bt sd rc rd q n ob sl].
  unfold Invariant.store_inv in *. cbn in He, Hinv.
  unfold_worker. exec_simpl. rewrite He.
  repeat (first [rewrite apply_retryCount | rewrite apply_maxRetries
                | rewrite or_number_self | exec_step]).
  all: cbn [World.emails snd]; rewrite ?insert_insert_eq;
       apply map_Forall_insert_2; [|exact Hinv].
  all: unfold Invariant.retry_bound, Invariant.failed_exhausted;
       rewrite ?apply_status, ?apply_retryCount, ?apply_errorMessage,
         ?apply_maxRetries;
       cbn [Patch.status Patch.retryCount Patch.errorMessage Patch.over
            default from_option id].
  all: (split; [lia|]).
  all: intros Hst; try discriminate Hst.
  all: left;
       match goal with
       | H : (or_number _ _ <=? _) = true |- _ =>
           apply Z.leb_le in H; unfold or_number in H;
           match type of H with
           | context [?m =? 0] =>
               destruct (Z.eqb_spec m 0); lia
           end
       end.
Qed.

(** A send that fails with retries left: the row goes back to
    [SCHEDULED] with the error and one more retry counted, and the
    processor resolves, with [success: false]. *)
Lemma processEmailJob_transport_failure jobId data w e :
  World.emails w !! EmailJobData.emailId data = Some e ->
  Env.redisUp env = true ->
  0 < RateLimit.quota cfg (EmailJobData.senderId data)
        (Counts.globalCount env w)
        (Counts.senderCount env (EmailJobData.senderId data) w) ->
  (forall options smtp,
     SendEmailResult.success (Env.transport env options smtp) = false) ->
  Email.retryCount e + 1
    < or_number (Some (Email.maxRetries e)) (Config.maxRetries cfg) ->
  exists msg w',
    Worker.processEmailJob cfg env jobId data w
    = (Ok (EmailJobResult.mk false None None (Some msg)), w')
    /\ exists e',
         World.emails w' !! EmailJobData.emailId data = Some e'
         /\ Email.status e' = SCHEDULED
         /\ Email.retryCount e' = Email.retryCount e + 1
         /\ Email.errorMessage e' = Some msg.
Proof.
  intros He Hup Hquota Hfail Hretry.
  destruct w as [em bt sd rc rd q n ob sl]. cbn in He.
  unfold Counts.globalCount, Counts.senderCount in Hquota.
  rewrite Hup in Hquota. cbn [World.redis] in Hquota.
  apply Z.ltb_lt in Hquota.
  unfold_worker. exec_simpl. rewrite He.
  rewrite RateLimitFacts.checkRateLimit_run.
  unfold Counts.globalCount, Counts.senderCount. rewrite Hup.
  exec_simpl. rewrite Hquota. exec_simpl.
  destruct (resolveFrom_run (EmailJobData.senderId data)
    (World.mk (<[EmailJobData.emailId data :=
                 Patch.apply (Patch.mk (Some PROCESSING) (Some jobId) None None
                                None None None) e]> em) bt sd rc rd q n ob
       (sl ++ [mkStatusWrite (EmailJobData.emailId data) (Email.status e)
                 PROCESSING]))) as [[[from name] smtp] Hr].
  rewrite Hr. exec_simpl. rewrite Hfail. exec_simpl.
  rewrite lookup_insert_eq. exec_simpl.
  rewrite apply_retryCount, apply_maxRetries, or_number_self. exec_simpl.
  destruct (Z.leb_spec (or_number (Some (Email.maxRetries e)) (Config.maxRetries cfg))
              (Email.retryCount e + 1)) as [Hle|_]; [lia|].
  exec_simpl. rewrite lookup_insert_eq. exec_simpl.
  eexists _, _. split; [reflexivity|].
  cbn [World.emails]. rewrite lookup_insert_eq. eexists. split; [reflexivity|].
  rewrite !apply_status, !apply_retryCount, !apply_errorMessage. cbn. done.
Qed.

Lemma same_content_apply p e : Frame.same_content e (Patch.apply p e).
Proof. unfold Frame.same_content. by repeat split. Qed.

(** One delivery writes no row but the job's, creates and deletes
    none, and keeps the content of the job's row. *)
Lemma processEmailJob_frame jobId data w :
  Frame.only_row (EmailJobData.emailId data) w
    (Worker.processEmailJob cfg env jobId data w).2.
Proof.
  destruct (World.emails w !! EmailJobData.emailId data) as [e|] eqn:He.
  2: { rewrite processEmailJob_missing by done. cbn [snd].
       split; [done|]. split; [|done]. rewrite He. constructor. }
  destruct w as [em bt sd rc rd q n ob sl]. cbn in He.
  unfold_worker. exec_simpl. rewrite He.
  repeat (first [rewrite apply_retryCount | rewrite or_number_self | exec_step
                | progress unfold ret, World.set_queue]).
  all: unfold Frame.only_row; cbn [World.emails World.senders snd].
  all: (split; [intros id' Hid; (rewrite ?lookup_insert_ne by done); reflexivity|]).
  all: (split; [|done]).
  all: rewrite He, lookup_insert_eq; constructor.
  all: (split; [unfold Frame.same_content; by repeat split|]).
  all: rewrite ?apply_retryCount;
       cbn [Patch.retryCount default from_option id]; lia.
Qed.

(** One delivery calls the transport at most once, with the recipient,
    subject and body of the job; it counts the send only if the
    transport accepted it, and a delivery that called the transport
    adds no job. *)
Lemma processEmailJob_sends jobId data w :
  let w' := (Worker.processEmailJob cfg env jobId data w).2 in
  (World.outbox w' = World.outbox w
   /\ World.redis w' = World.redis w
   /\ World.rateLimitCounters w' = World.rateLimitCounters w)
  \/ (exists o smtp,
        World.outbox w' = World.outbox w ++ [o]
        /\ SendEmailOptions.to o = EmailJobData.recipientEmail data
        /\ SendEmailOptions.subject o = EmailJobData.subject data
        /\ SendEmailOptions.html o = EmailJobData.body data
        /\ World.queue w' = World.queue w
        /\ (SendEmailResult.success (Env.transport env o smtp) = false ->
            World.redis w' = World.redis w
            /\ World.rateLimitCounters w' = World.rateLimitCounters w)).
Proof.
  cbv zeta.
  destruct (World.emails w !! EmailJobData.emailId data) as [e|] eqn:He.
  2: { rewrite processEmailJob_missing by done. by left. }
  destruct w as [em bt sd rc rd q n ob sl]. cbn in He.
  unfold_worker. exec_simpl. rewrite He.
  repeat (first [exec_step | progress unfold ret, World.set_queue]).
  all: cbn [World.outbox World.redis World.rateLimitCounters World.queue snd].
  all: first
    [ left; repeat split; reflexivity
    | right;
      match goal with
      | H : SendEmailResult.success (Env.transport _ ?o ?s) = _ |- _ => exists o, s
      end;
      split; [reflexivity|];
      cbn [SendEmailOptions.to SendEmailOptions.subject SendEmailOptions.html];
      do 4 (split; [reflexivity|]);
      intros Hf;
      first [ split; reflexivity
            | match goal with
              | H : SendEmailResult.success _ = true |- _ =>
                  rewrite H in Hf; discriminate Hf
              end ] ].
Qed.

(** A delivery that the rate limiter refuses: the row is parked as
    [RATE_LIMITED], nothing is sent or counted, and the job of the next
    attempt is added for the start of the next local hour. *)
Lemma processEmailJob_rate_limited jobId data w e :
  World.emails w !! EmailJobData.emailId data = Some e ->
  Env.redisUp env = true ->
  Env.queueError env = None ->
  RateLimit.quota cfg (EmailJobData.senderId data)
    (Counts.globalCount env w)
    (Counts.senderCount env (EmailJobData.senderId data) w) <= 0 ->
  let nextSlot := Clock.getNextHourStart (Env.tz env) (Env.now env) in
  let nextData :=
    EmailJobData.mk (EmailJobData.emailId data) (EmailJobData.recipientEmail data)
      (EmailJobData.subject data) (EmailJobData.body data)
      (EmailJobData.senderId data) (EmailJobData.userId data)
      (EmailJobData.batchId data) (EmailJobData.attemptNumber data + 1) in
  exists w',
    Worker.processEmailJob cfg env jobId data w
    = (Ok (EmailJobResult.mk false None None
             (Some ("Rate limited. Rescheduled for "
                    +:+ Env.toISOString env nextSlot))), w')
    /\ World.emails w'
       = <[EmailJobData.emailId data :=
            Patch.apply (Patch.mk (Some RATE_LIMITED) (Some jobId) None None
                           None None None) e]> (World.emails w)
    /\ World.queue w'
       = EmailQueue.enqueue (EmailQueue.make_job cfg env nextData nextSlot 0)
           (World.queue w)
    /\ World.outbox w' = World.outbox w
    /\ World.redis w' = World.redis w
    /\ World.rateLimitCounters w' = World.rateLimitCounters w
    /\ World.emailBatches w' = World.emailBatches w.
Proof.
  intros He Hup Hq Hquota. cbv zeta.
  destruct w as [em bt sd rc rd q n ob sl]. cbn in He.
  unfold Counts.globalCount, Counts.senderCount in Hquota.
  rewrite Hup in Hquota. cbn [World.redis] in Hquota.
  apply Z.ltb_ge in Hquota.
  unfold_worker. exec_simpl. rewrite He.
  rewrite RateLimitFacts.checkRateLimit_run.
  unfold Counts.globalCount, Counts.senderCount. rewrite Hup.
  exec_simpl. rewrite Hquota. exec_simpl.
  rewrite lookup_insert_eq. exec_simpl.
  unfold RateLimit.getNextAvailableSlot, bind, ret.
  rewrite RateLimitFacts.checkRateLimit_run.
  unfold Counts.globalCount, Counts.senderCount. rewrite Hup.
  exec_simpl. rewrite Hquota. exec_simpl.
  rewrite rescheduleJob_run, Hq. unfold World.set_queue. exec_simpl.
  eexists. split; [reflexivity|].
  cbn [World.emails World.queue World.outbox World.redis
       World.rateLimitCounters World.emailBatches].
  rewrite insert_insert_eq. done.
Qed.

(** The stores after a send is counted, Redis answering. *)
Lemma incrementRateLimit_up senderId w :
  Env.redisUp env = true ->
  RateLimit.incrementRateLimit env senderId w =
  (Ok tt,
   World.mk (World.emails w) (World.emailBatches w) (World.senders w)
     (World.rateLimitCounters (RateLimit.incrementRateLimit env senderId w).2)
     (World.redis (RateLimit.incrementRateLimit env senderId w).2)
     (World.queue w) (World.nextUuid w) (World.outbox w) (World.statusLog w)).
Proof.
  intros Hup.
  unfold RateLimit.incrementRateLimit, RateLimit.updateDBRateLimit,
    RateLimit.redis_incr, Prisma.rateLimitCounter_upsert, tryCatch, bind, ret,
    throw, when, modify.
  rewrite Hup. destruct w. by destruct (truthy senderId).
Qed.

(** The counters after a send depend on the counters before it only. *)
Lemma incrementRateLimit_same senderId w1 w2 :
  World.redis w1 = World.redis w2 ->
  World.rateLimitCounters w1 = World.rateLimitCounters w2 ->
  World.redis (RateLimit.incrementRateLimit env senderId w1).2
  = World.redis (RateLimit.incrementRateLimit env senderId w2).2
  /\ World.rateLimitCounters (RateLimit.incrementRateLimit env senderId w1).2
     = World.rateLimitCounters (RateLimit.incrementRateLimit env senderId w2).2.
Proof.
  unfold RateLimit.incrementRateLimit, RateLimit.updateDBRateLimit,
    RateLimit.redis_incr, Prisma.rateLimitCounter_upsert, tryCatch, bind, ret,
    throw, when, modify.
  destruct w1, w2. cbn. intros -> ->.
  destruct (Env.redisUp env); [|done]. by destruct (truthy senderId).
Qed.

(** A delivery that the limiter allows and the transport accepts: one
    envelope is handed over, the send is counted once, the row is
    [SENT] at the time of the delivery and its batch counts one more
    sent message. *)
Lemma processEmailJob_sent jobId data w e :
  World.emails w !! EmailJobData.emailId data = Some e ->
  Env.redisUp env = true ->
  0 < RateLimit.quota cfg (EmailJobData.senderId data)
        (Counts.globalCount env w)
        (Counts.senderCount env (EmailJobData.senderId data) w) ->
  Legal.batch_linked (EmailJobData.emailId data) w ->
  (forall options smtp,
     SendEmailResult.success (Env.transport env options smtp) = true) ->
  exists o smtp w',
    let r := Env.transport env o smtp in
    Worker.processEmailJob cfg env jobId data w
    = (Ok (EmailJobResult.mk true (SendEmailResult.messageId r)
             (SendEmailResult.previewUrl r) None), w')
    /\ World.emails w'
       = <[EmailJobData.emailId data :=
            Patch.apply (Patch.mk (Some SENT) (Some jobId) None None
                           (Some (Env.now env)) (SendEmailResult.messageId r)
                           (SendEmailResult.previewUrl r)) e]> (World.emails w)
    /\ World.outbox w' = World.outbox w ++ [o]
    /\ SendEmailOptions.to o = EmailJobData.recipientEmail data
    /\ World.redis w'
       = World.redis
           (RateLimit.incrementRateLimit env (EmailJobData.senderId data) w).2
    /\ World.rateLimitCounters w'
       = World.rateLimitCounters
           (RateLimit.incrementRateLimit env (EmailJobData.senderId data) w).2
    /\ World.emailBatches w'
       = (if truthy (Email.batchId e)
          then alter Prisma.incr_sentEmails (default "" (Email.batchId e))
                 (World.emailBatches w)
          else World.emailBatches w)
    /\ World.queue w' = World.queue w.
Proof.
  intros He Hup Hquota Hb Hsend. specialize (Hb e He).
  destruct w as [em bt sd rc rd q n ob sl]. cbn in He, Hb.
  unfold Counts.globalCount, Counts.senderCount in Hquota.
  rewrite Hup in Hquota. cbn [World.redis] in Hquota.
  apply Z.ltb_lt in Hquota.
  unfold_worker. exec_simpl. rewrite He.
  rewrite RateLimitFacts.checkRateLimit_run.
  unfold Counts.globalCount, Counts.senderCount. rewrite Hup.
  exec_simpl. rewrite Hquota. exec_simpl.
  match goal with
  | |- context [Worker.resolveFrom ?s ?w0] =>
      destruct (resolveFrom_run s w0) as [[[from name] smtp] Hr]
  end.
  rewrite Hr. exec_simpl. rewrite Hsend. exec_simpl.
  rewrite incrementRateLimit_up by done. exec_simpl.
  rewrite lookup_insert_eq. exec_simpl.
  rewrite lookup_insert_eq. exec_simpl. rewrite !apply_batchId.
  rewrite alter_alt.
  destruct (truthy (Email.batchId e)) eqn:Ht; exec_simpl.
  - destruct (Hb eq_refl) as [b Hbt]. rewrite Hbt. unfold ret. exec_simpl.
    eexists _, smtp, _. cbv zeta. split; [reflexivity|].
    cbn [World.emails World.outbox World.redis World.rateLimitCounters
         World.emailBatches World.queue SendEmailOptions.to].
    rewrite insert_insert_eq.
    do 3 (split; [reflexivity|]).
    split; [by apply incrementRateLimit_same|].
    split; [by apply incrementRateLimit_same|]. done.
  - unfold ret. eexists _, smtp, _. cbv zeta. split; [reflexivity|].
    cbn [World.emails World.outbox World.redis World.rateLimitCounters
         World.emailBatches World.queue SendEmailOptions.to].
    rewrite insert_insert_eq.
    do 3 (split; [reflexivity|]).
    split; [by apply incrementRateLimit_same|].
    split; [by apply incrementRateLimit_same|]. done.
Qed.

(** A send that fails with no retry left: the row is [FAILED] with the
    error of the transport, its batch counts one more failed message,
    nothing is counted against the quota, and the processor resolves. *)
Lemma processEmailJob_exhausted jobId data w e :
  World.emails w !! EmailJobData.emailId data = Some e ->
  Env.redisUp env = true ->
  0 < RateLimit.quota cfg (EmailJobData.senderId data)
        (Counts.globalCount env w)
        (Counts.senderCount env (EmailJobData.senderId data) w) ->
  Legal.batch_linked (EmailJobData.emailId data) w ->
  (forall options smtp,
     SendEmailResult.success (Env.transport env options smtp) = false) ->
  or_number (Some (Email.maxRetries e)) (Config.maxRetries cfg)
    <= Email.retryCount e + 1 ->
  exists o smtp w',
    let msg := or_string (SendEmailResult.error (Env.transport env o smtp))
                 "Unknown email sending error" in
    Worker.processEmailJob cfg env jobId data w
    = (Ok (EmailJobResult.mk false None None (Some msg)), w')
    /\ World.emails w'
       = <[EmailJobData.emailId data :=
            Patch.apply (Patch.mk (Some FAILED) (Some jobId) (Some msg)
                           (Some (Email.retryCount e + 1)) None None None) e]>
           (World.emails w)
    /\ World.outbox w' = World.outbox w ++ [o]
    /\ World.redis w' = World.redis w
    /\ World.rateLimitCounters w' = World.rateLimitCounters w
    /\ World.emailBatches w'
       = (if truthy (Email.batchId e)
          then alter Prisma.incr_failedEmails (default "" (Email.batchId e))
                 (World.emailBatches w)
          else World.emailBatches w)
    /\ World.queue w' = World.queue w.
Proof.
  intros He Hup Hquota Hb Hfail Hretry. specialize (Hb e He).
  destruct w as [em bt sd rc rd q n ob sl]. cbn in He, Hb.
  unfold Counts.globalCount, Counts.senderCount in Hquota.
  rewrite Hup in Hquota. cbn [World.redis] in Hquota.
  apply Z.ltb_lt in Hquota. apply Z.leb_le in Hretry.
  unfold_worker. exec_simpl. rewrite He.
  rewrite RateLimitFacts.checkRateLimit_run.
  unfold Counts.globalCount, Counts.senderCount. rewrite Hup.
  exec_simpl. rewrite Hquota. exec_simpl.
  match goal with
  | |- context [Worker.resolveFrom ?s ?w0] =>
      destruct (resolveFrom_run s w0) as [[[from name] smtp] Hr]
  end.
  rewrite Hr. exec_simpl. rewrite Hfail. exec_simpl.
  rewrite lookup_insert_eq. exec_simpl.
  rewrite apply_retryCount, apply_maxRetries, or_number_self. exec_simpl.
  rewrite Hretry. exec_simpl. rewrite lookup_insert_eq. exec_simpl.
  rewrite !apply_batchId. rewrite alter_alt.
  destruct (truthy (Email.batchId e)) eqn:Ht; exec_simpl.
  - destruct (Hb eq_refl) as [b Hbt]. rewrite Hbt. unfold ret. exec_simpl.
    eexists _, smtp, _. cbv zeta. split; [reflexivity|].
    cbn [World.emails World.outbox World.redis World.rateLimitCounters
         World.emailBatches World.queue message_or].
    rewrite insert_insert_eq. done.
  - unfold ret. eexists _, smtp, _. cbv zeta. split; [reflexivity|].
    cbn [World.emails World.outbox World.redis World.rateLimitCounters
         World.emailBatches World.queue message_or].
    rewrite insert_insert_eq. done.
Qed.

End WithConfig.
End WorkerFacts.

(** * Jobs under BullMQ *)

Module BullFacts.
Import Js.

(** A job whose send fails with retries left is completed at that
    delivery: the later deliveries of the script are never made. *)
Lemma run_completes_on_transport_failure cfg env envs attemptsMade j w e :
  World.emails w !! EmailJobData.emailId (Job.data j) = Some e ->
  Env.redisUp env = true ->
  0 < RateLimit.quota cfg (EmailJobData.senderId (Job.data j))
        (Counts.globalCount env w)
        (Counts.senderCount env (EmailJobData.senderId (Job.data j)) w) ->
  (forall options smtp,
     SendEmailResult.success (Env.transport env options smtp) = false) ->
  Email.retryCount e + 1
    < or_number (Some (Email.maxRetries e)) (Config.maxRetries cfg) ->
  exists msg w',
    Bull.run cfg (env :: envs) attemptsMade j w
    = (Bull.Completed (EmailJobResult.mk false None None (Some msg)), w')
    /\ Email.status <$> World.emails w' !! EmailJobData.emailId (Job.data j)
       = Some SCHEDULED.
Proof.
  intros He Hup Hquota Hfail Hretry.
  destruct (WorkerFacts.processEmailJob_transport_failure cfg env (Job.id j)
              (Job.data j) w e He Hup Hquota Hfail Hretry)
    as (msg & w' & Hrun & e' & He' & Hs & _).
  exists msg, w'. simpl. rewrite Hrun. split; [done|].
  by rewrite He', <- Hs.
Qed.

(** A job whose row is gone fails at every delivery and ends in the
    failed set once its attempts are used up. *)
Lemma run_fails_on_missing_row cfg envs attemptsMade j w :
  World.emails w !! EmailJobData.emailId (Job.data j) = None ->
  Bull.run cfg envs attemptsMade j w = (Bull.Waiting, w)
  \/ Bull.run cfg envs attemptsMade j w = (Bull.Failed Prisma.P2025, w).
Proof.
  intros Hnone. revert attemptsMade.
  induction envs as [|env envs IH]; intros attemptsMade; simpl; [by left|].
  rewrite WorkerFacts.processEmailJob_missing by done.
  destruct (_ <? _); [apply IH | by right].
Qed.

End BullFacts.

(** * The coordinator *)

Module ControllerFacts.
Import Js Frame.

Section Preserves.
Context (I : World.t -> Prop).

Lemma preserves_ret {A} (a : A) : preserves I (ret a).
Proof. by intros w. Qed.

Lemma preserves_throw {A} e : preserves I (@throw _ A e).
Proof. by intros w. Qed.

Lemma preserves_bind {A B} (m : Async A) (k : A -> Async B) :
  preserves I m -> (forall a, preserves I (k a)) -> preserves I (bind m k).
Proof.
  intros Hm Hk w Hw. unfold bind. specialize (Hm w Hw).
  destruct (m w) as [[a|e] w1]; simpl in *; [by apply Hk|done].
Qed.

Lemma preserves_tryCatch {A} (m : Async A) (h : Thrown -> Async A) :
  preserves I m -> (forall e, preserves I (h e)) -> preserves I (tryCatch m h).
Proof.
  intros Hm Hh w Hw. unfold tryCatch. specialize (Hm w Hw).
  destruct (m w) as [[a|e] w1]; simpl in *; [done|by apply Hh].
Qed.

Lemma preserves_mapM {A B} (f : A -> Async B) l :
  (forall a, preserves I (f a)) -> preserves I (mapM f l).
Proof.
  intros Hf. induction l as [|a l IH]; simpl.
  - apply preserves_ret.
  - apply preserves_bind; [apply Hf|]. intros b.
    apply preserves_bind; [apply IH|]. intros bs. apply preserves_ret.
Qed.

End Preserves.

Lemma rows_kept_refl w : rows_kept w w.
Proof. intros id e H. exact H. Qed.

Lemma email_create_rows env e w :
  rows_kept w (Prisma.email_create env e w).2
  /\ forall r, (Prisma.email_create env e w).1 = Ok r ->
       r.2 = e /\ World.emails (Prisma.email_create env e w).2 !! r.1 = Some e.
Proof.
  unfold Prisma.email_create, rows_kept. cbv zeta.
  destruct (World.emails w !! Env.uuid env (World.nextUuid w)) eqn:E;
    destruct w; cbn [World.emails World.nextUuid World.set_emails
                     World.set_nextUuid fst snd] in *.
  - split; [intros ? ? H; exact H|]. intros r [=].
  - split.
    + intros id e' H. rewrite lookup_insert_ne; [done|]. congruence.
    + intros r [= <-]. cbn. split; [done|]. apply lookup_insert_eq.
Qed.

Lemma mapM_create_rows {A} env (f : A -> Async (string * Email.t))
    (mk : A -> option Email.t) (err : Thrown) l :
  (forall a, f a = match mk a with
                   | None => throw err
                   | Some e => Prisma.email_create env e
                   end) ->
  forall w o w',
    mapM f l w = (o, w') ->
    rows_kept w w'
    /\ forall rs, o = Ok rs ->
         Forall (fun r : string * Email.t =>
                   World.emails w' !! r.1 = Some r.2
                   /\ exists a, a ∈ l /\ mk a = Some r.2) rs.
Proof.
  intros Hf.
  induction l as [|a l IH]; intros w o w'; simpl.
  - intros [= <- <-]. split; [apply rows_kept_refl|]. intros rs [= <-]. constructor.
  - unfold bind at 1. rewrite Hf. destruct (mk a) as [e|] eqn:Hmk.
    2: { unfold throw. intros [= <- <-]. split; [apply rows_kept_refl|].
         intros rs [=]. }
    destruct (email_create_rows env e w) as [Hk Hr].
    destruct (Prisma.email_create env e w) as [[r|x] w1]; simpl in *.
    2: { intros [= <- <-]. split; [exact Hk|]. intros rs [=]. }
    destruct (Hr r eq_refl) as [Hre Hlook].
    unfold bind at 1.
    destruct (mapM f l w1) as [[rs|x] w2] eqn:Hrest;
      destruct (IH _ _ _ Hrest) as [Hk1 Hr1].
    2: { intros [= <- <-]. split; [|intros ? [=]].
         intros id e' H. by apply Hk1, Hk. }
    unfold ret. intros [= <- <-].
    split; [intros id e' H; by apply Hk1, Hk|].
    intros ? [= <-]. constructor.
    + split; [rewrite Hre; by apply Hk1|].
      exists a. split; [left|]. by rewrite Hre.
    + eapply Forall_impl; [by apply Hr1|]. simpl.
      intros r' [H1 (a' & Ha' & Hm')]. split; [done|].
      exists a'. split; [by right|done].
Qed.

Section WithConfig.
Variable cfg : Config.t.
Variable env : Env.t.

(** The rows that [createBatchAndEmails] returns are in the store,
    [SCHEDULED] and of the new batch. *)
Lemma createBatchAndEmails_rows userId req sid times w bid ems w1 :
  Controller.createBatchAndEmails env userId req sid times w = (Ok (bid, ems), w1) ->
  Forall (fun r : string * Email.t =>
            World.emails w1 !! r.1 = Some r.2
            /\ Email.batchId r.2 = Some bid
            /\ Email.status r.2 = SCHEDULED) ems.
Proof.
  unfold Controller.createBatchAndEmails. unfold bind at 1.
  destruct (Prisma.emailBatch_create _ _ w) as [[[b ?]|x] w0]; [|done].
  unfold bind at 1.
  destruct (mapM _ _ w0) as [[rs|x] w2] eqn:Hm; [|done].
  unfold ret. intros [= <- <- <-].
  eapply (mapM_create_rows env _
            (fun ir : nat * string =>
               (fun scheduledAt =>
                  Email.mk userId (Some sid) ir.2
                    (Controller.ScheduleRequest.subject req)
                    (Controller.ScheduleRequest.body req)
                    scheduledAt None SCHEDULED None 0 3 None None None
                    (Some b) (Some (Z.of_nat ir.1))) <$> times !! ir.1)) in Hm.
  2: { intros [i r]. simpl. by destruct (times !! i). }
  destruct Hm as [_ Hrows]. specialize (Hrows rs eq_refl).
  eapply Forall_impl; [exact Hrows|]. simpl.
  intros r [Hl ([i rc] & _ & Hmk)]. split; [done|].
  simpl in Hmk. destruct (times !! i); simplify_eq/=. by rewrite <- Hmk.
Qed.

Lemma enqueueAndLink_queue_down userId sid bid ems times w qe :
  Env.queueError env = Some qe ->
  Controller.enqueueAndLink cfg env userId sid bid ems times w = (Throw qe, w).
Proof.
  intros Hq. unfold Controller.enqueueAndLink, EmailQueue.addEmailJobs,
    EmailQueue.queue_addBulk, bind, tryCatch, throw.
  by rewrite Hq.
Qed.


(** What [scheduleEmails] keeps, given that its writes do. *)
Lemma scheduleEmails_preserves (I : World.t -> Prop) userId req :
  (forall b, preserves I (Prisma.emailBatch_create env b)) ->
  (forall e, Email.status e = SCHEDULED -> Email.retryCount e = 0 ->
             preserves I (Prisma.email_create env e)) ->
  (forall f w, I w -> I (World.set_queue f w)) ->
  (forall id j, preserves I
     (Prisma.email_update id (Patch.mk None j None None None None None))) ->
  (forall bid msg, preserves I
     (Prisma.email_updateMany_batch bid
        (Patch.mk (Some FAILED) None (Some msg) None None None None))) ->
  preserves I (Controller.scheduleEmails cfg env userId req).
Proof.
  intros Hbatch Hcreate Hqueue Hlink Hfail.
  assert (Hfind : forall p, preserves I (Prisma.sender_findFirst p)).
  { intros p w Hw. exact Hw. }
  unfold Controller.scheduleEmails.
  apply preserves_tryCatch.
  2: { intros e. unfold Controller.scheduleEmails_catch. apply preserves_ret. }
  apply preserves_bind.
  { unfold Controller.resolveSender.
    destruct (negb _).
    - apply preserves_bind; [apply Hfind|]. intros [s|]; [apply preserves_ret|].
      apply preserves_bind; [apply Hfind|]. intros [s|]; apply preserves_ret.
    - apply preserves_bind; [apply Hfind|]. intros [s|]; apply preserves_ret. }
  intros [sid|reply]; [|apply preserves_ret].
  destruct (negb _); [apply preserves_ret|].
  apply preserves_bind; [apply preserves_ret|]. intros times.
  apply preserves_bind.
  { unfold Controller.createBatchAndEmails.
    apply preserves_bind; [apply Hbatch|]. intros [bid b].
    apply preserves_bind; [|intros; apply preserves_ret].
    apply preserves_mapM. intros [i r].
    destruct (times !! i); [by apply Hcreate|apply preserves_throw]. }
  intros [bid ems].
  apply preserves_tryCatch.
  - unfold Controller.enqueueAndLink.
    apply preserves_bind.
    { unfold EmailQueue.addEmailJobs. apply preserves_tryCatch.
      - unfold EmailQueue.queue_addBulk.
        destruct (Env.queueError env); [apply preserves_throw|].
        intros w Hw. by apply Hqueue.
      - intros e. apply preserves_throw. }
    intros jobIds.
    apply preserves_bind; [|intros; apply preserves_ret].
    apply preserves_mapM. intros [i [id e]]. apply Hlink.
  - intros e. unfold Controller.markBatchFailed.
    apply preserves_bind; [apply Hfail|]. intros. apply preserves_throw.
Qed.


(** [scheduleEmails] keeps "a [FAILED] row has an error message". *)
Lemma scheduleEmails_failed_has_error userId req :
  preserves (Invariant.store_inv Invariant.failed_has_error)
    (Controller.scheduleEmails cfg env userId req).
Proof.
  apply scheduleEmails_preserves; unfold preserves, Invariant.store_inv.
  - intros b w Hw. unfold Prisma.emailBatch_create. cbv zeta.
    destruct (World.emailBatches w !! _); destruct w; exact Hw.
  - intros e Hs _ w Hw. unfold Prisma.email_create. cbv zeta.
    destruct (World.emails w !! _) eqn:E; destruct w; cbn in *; [exact Hw|].
    apply map_Forall_insert_2; [|exact Hw].
    unfold Invariant.failed_has_error. rewrite Hs. discriminate.
  - intros f w Hw. destruct w; exact Hw.
  - intros id j w Hw. unfold Prisma.email_update.
    destruct (World.emails w !! id) as [e|] eqn:E; [|exact Hw].
    destruct w; cbn in *. apply map_Forall_insert_2; [|exact Hw].
    exact (map_Forall_lookup_1 _ _ _ _ Hw E).
  - intros bid msg w Hw. unfold Prisma.email_updateMany_batch.
    destruct w; cbn in *. apply map_Forall_fmap.
    eapply map_Forall_impl; [exact Hw|]. simpl. intros id e He.
    case_bool_decide; [|exact He]. intros _. discriminate.
Qed.

(** The status writes of [scheduleEmails] all write [FAILED]. *)
Lemma scheduleEmails_writes userId req w :
  exists new,
    Legal.log_extends w (Controller.scheduleEmails cfg env userId req w).2 new
    /\ Forall (fun sw => sw_to sw = FAILED) new.
Proof.
  set (I := fun w' : World.t =>
    exists new, Legal.log_extends w w' new
                /\ Forall (fun sw => sw_to sw = FAILED) new).
  assert (HI : preserves I (Controller.scheduleEmails cfg env userId req)).
  { apply scheduleEmails_preserves; unfold preserves, I, Legal.log_extends.
    - intros b w0 Hw. unfold Prisma.emailBatch_create. cbv zeta.
      destruct (World.emailBatches w0 !! _); destruct w0; exact Hw.
    - intros e _ _ w0 Hw. unfold Prisma.email_create. cbv zeta.
      destruct (World.emails w0 !! _); destruct w0; exact Hw.
    - intros f w0 Hw. destruct w0; exact Hw.
    - intros id j w0 Hw. unfold Prisma.email_update.
      destruct (World.emails w0 !! id) as [e|]; [|exact Hw].
      destruct w0; cbn in *. by rewrite app_nil_r.
    - intros bid msg w0 (new & Hnew & Hall). unfold Prisma.email_updateMany_batch.
      destruct w0; cbn in *. eexists. rewrite Hnew, <- app_assoc.
      split; [reflexivity|]. apply Forall_app. split; [exact Hall|].
      induction (List.filter _ _) as [|kv l IH]; simpl; [constructor|].
      by constructor. }
  apply HI. exists []. unfold Legal.log_extends. split; [|constructor].
  by rewrite app_nil_r.
Qed.

(** [cancelEmail] writes no status; it deletes the row or does nothing. *)
Lemma cancelEmail_effect userId id w :
  let w' := (Controller.cancelEmail userId id w).2 in
  World.statusLog w' = World.statusLog w
  /\ (World.emails w' = World.emails w
      \/ World.emails w' = delete id (World.emails w)).
Proof.
  unfold Controller.cancelEmail, tryCatch, bind, ret, Prisma.email_findUnique,
    Prisma.email_delete.
  destruct w as [em bt sd rc rd q n ob sl]; cbn.
  destruct (em !! id) as [e|] eqn:E; cbn; [|auto].
  destruct (String.eqb _ _); cbn; [|auto]. rewrite E. cbn. auto.
Qed.

(** The earlier [cancelEmail] writes [FAILED] to a [SCHEDULED] or
    [RATE_LIMITED] row, with the cancellation message. *)
Lemma cancelEmail_dist_effect userId id w :
  let w' := (Controller.cancelEmail_dist userId id w).2 in
  w' = w
  \/ exists e, World.emails w !! id = Some e
       /\ (Email.status e = SCHEDULED \/ Email.status e = RATE_LIMITED)
       /\ World.emails w'
          = <[id := Patch.apply
                      (Patch.mk (Some FAILED) None (Some "Cancelled by user")
                         None None None None) e]> (World.emails w)
       /\ World.statusLog w'
          = World.statusLog w ++ [mkStatusWrite id (Email.status e) FAILED].
Proof.
  unfold Controller.cancelEmail_dist, tryCatch, bind, ret, Prisma.email_findUnique,
    Prisma.email_update.
  destruct w as [em bt sd rc rd q n ob sl]; cbn.
  destruct (em !! id) as [e|] eqn:E; cbn; [|auto].
  destruct (String.eqb _ _); cbn; [|auto].
  destruct (bool_decide _ || bool_decide _) eqn:Hs; cbn; [|auto].
  rewrite E. cbn. right. exists e. split; [done|]. split; [|done].
  apply orb_true_iff in Hs as [H|H]; apply bool_decide_eq_true in H; auto.
Qed.

End WithConfig.
End ControllerFacts.


(** * Worked scenarios *)

(** Three recipients from 10:00:00Z, 30 s apart, cap 100, in UTC:
    10:00:00, 10:00:30, 10:01:00. *)
Example planner_single_batch :
  Planner.calculateScheduledTimes 0 3 1735725600000 30 100 None
  = [1735725600000; 1735725630000; 1735725660000].
Proof. reflexivity. Qed.

(** Spacing 0 still respects the cap: two instants at the start, then
    the next hour. *)
Example planner_zero_spacing :
  Planner.calculateScheduledTimes 0 5 1735729140000 0 2 None
  = [1735729140000; 1735729140000; 1735729200000; 1735729200000;
     1735732800000].
Proof. reflexivity. Qed.

(** A successful delivery: [SCHEDULED], [PROCESSING], [SENT], one
    envelope, both counters of the hour at 1, the batch counter at 1. *)
Example delivery_succeeds :
  let w' := (Worker.processEmailJob Sample.cfg Sample.env_ok
               "email-m1-attempt-1" Sample.data1 Sample.world1).2 in
  Email.status <$> World.emails w' !! "m1" = Some SENT
  /\ World.statusLog w'
     = [mkStatusWrite "m1" SCHEDULED PROCESSING;
        mkStatusWrite "m1" PROCESSING SENT]
  /\ length (World.outbox w') = 1%nat
  /\ World.redis w' !! (None, 482146) = Some 1
  /\ World.redis w' !! (Some "s1"%string, 482146) = Some 1
  /\ EmailBatch.sentEmails <$> World.emailBatches w' !! "b1" = Some 1.
Proof. by vm_compute. Qed.

(** A send that succeeded and whose batch counter update then rejects
    (here the batch row is absent): the handler for failed sends runs,
    and the row of the sent message goes from [SENT] back to
    [SCHEDULED], with one retry counted; the job completes. *)
Example sent_message_is_put_back :
  let w := World.set_emailBatches (fun _ => ∅) Sample.world1 in
  let r := Bull.run Sample.cfg [Sample.env_ok] 0 Sample.job1 w in
  World.statusLog r.2
  = [mkStatusWrite "m1" SCHEDULED PROCESSING;
     mkStatusWrite "m1" PROCESSING SENT;
     mkStatusWrite "m1" SENT SCHEDULED]
  /\ SendEmailOptions.to <$> World.outbox r.2 = ["a@example.com"%string]
  /\ Email.status <$> World.emails r.2 !! "m1" = Some SCHEDULED
  /\ Email.retryCount <$> World.emails r.2 !! "m1" = Some 1
  /\ r.1 = Bull.Completed
             (EmailJobResult.mk false None None
                (Some (Js.message_or Prisma.P2025 "Unknown error"))).
Proof. by vm_compute. Qed.

(** A rate-limited message resumes without passing through
    [SCHEDULED]: the worker leaves it [RATE_LIMITED], and the
    rescheduled job moves it from [RATE_LIMITED] straight to
    [PROCESSING]. *)
Example rate_limited_resumes_without_scheduled :
  let w1 := (Worker.processEmailJob Sample.cfg Sample.env_ok
               "email-m1-attempt-1" Sample.data1 Sample.world1_full).2 in
  let w2 := (Worker.processEmailJob Sample.cfg Sample.env_later
               "email-m1-attempt-2" Sample.data1_again w1).2 in
  Email.status <$> World.emails Sample.world1_full !! "m1" = Some SCHEDULED
  /\ Email.status <$> World.emails w1 !! "m1" = Some RATE_LIMITED
  /\ Job.id <$> World.queue w1 = ["email-m1-attempt-2"]
  /\ World.statusLog w2
     = [mkStatusWrite "m1" SCHEDULED PROCESSING;
        mkStatusWrite "m1" PROCESSING RATE_LIMITED;
        mkStatusWrite "m1" RATE_LIMITED PROCESSING;
        mkStatusWrite "m1" PROCESSING SENT]
  /\ ~ Legal.enumerated RATE_LIMITED PROCESSING
  /\ ~ Forall (fun sw => Legal.enumerated (sw_from sw) (sw_to sw))
         (World.statusLog w2).
Proof.
  assert (Hno : ~ Legal.enumerated RATE_LIMITED PROCESSING).
  { unfold Legal.enumerated. intros H.
    repeat (destruct H as [[? ?]|H]; [discriminate|]).
    destruct H; discriminate. }
  split; [by vm_compute|]. split; [by vm_compute|]. split; [by vm_compute|].
  split; [by vm_compute|]. split; [exact Hno|].
  intros H.
  assert (Hlog : World.statusLog
            (Worker.processEmailJob Sample.cfg Sample.env_later
               "email-m1-attempt-2" Sample.data1_again
               (Worker.processEmailJob Sample.cfg Sample.env_ok
                  "email-m1-attempt-1" Sample.data1 Sample.world1_full).2).2
          = [mkStatusWrite "m1" SCHEDULED PROCESSING;
             mkStatusWrite "m1" PROCESSING RATE_LIMITED;
             mkStatusWrite "m1" RATE_LIMITED PROCESSING;
             mkStatusWrite "m1" PROCESSING SENT]) by (by vm_compute).
  rewrite Hlog in H. apply Forall_cons_1 in H as [_ H].
  apply Forall_cons_1 in H as [_ H]. apply Forall_cons_1 in H as [H _].
  exact (Hno H).
Qed.


(** A batch of two scheduled with the queue reachable: two rows, two
    jobs with deterministic ids, the ids written back. *)
Example schedule_succeeds :
  let r := Controller.scheduleEmails Sample.cfg Sample.env_ok "u1"
             Sample.request2 Sample.world0 in
  (Controller.Response.statusCode <$>
     match r.1 with Js.Ok reply => Some reply | Js.Throw _ => None end) = Some 201
  /\ Job.id <$> World.queue r.2
     = ["email-uuid-1-attempt-1"; "email-uuid-2-attempt-1"]
  /\ Email.jobId <$> World.emails r.2 !! "uuid-2"
     = Some (Some "email-uuid-2-attempt-1"%string)
  /\ Email.scheduledAt <$> World.emails r.2 !! "uuid-2" = Some 1735729170000.
Proof. by vm_compute. Qed.

(** * Main theorems *)

Import Js.
Import Clock Planner ClockFacts PlannerFacts.

(** C4. For count, spacing >= 0 and cap >= 1 the planner returns exactly
    [count] instants, in non-decreasing order. *)
Theorem planner_length_and_monotone tz count startTime delay cap senderId :
  0 <= count -> 0 <= delay -> 1 <= cap ->
  let l := calculateScheduledTimes tz count startTime delay cap senderId in
  Z.of_nat (length l) = count
  /\ forall (i j : nat) a b,
       (i <= j)%nat -> l !! i = Some a -> l !! j = Some b -> a <= b.
Proof.
  intros Hn Hd Hc l. split.
  - unfold l, calculateScheduledTimes. rewrite plan_loop_length. simpl. lia.
  - destruct (calculateScheduledTimes_inv tz count startTime delay cap senderId Hd Hc)
      as [st I].
    exact (inv_mono _ _ _ _ _ I).
Qed.

Lemma planner_length_and_monotone_witness :
  let l := calculateScheduledTimes 0 4 1735729140000 30 2 None in
  Z.of_nat (length l) = 4
  /\ forall (i j : nat) a b,
       (i <= j)%nat -> l !! i = Some a -> l !! j = Some b -> a <= b.
Proof. apply planner_length_and_monotone; lia. Defined.

(** C3. For spacing >= 0 and cap >= 1, every one-hour window that starts
    on a (local) clock hour holds at most [cap] planned instants. *)
Theorem planner_hourly_cap tz count startTime delay cap senderId h :
  0 <= delay -> 1 <= cap -> hour_aligned tz h ->
  count_in h (calculateScheduledTimes tz count startTime delay cap senderId) <= cap.
Proof.
  intros Hd Hc Hh.
  destruct (calculateScheduledTimes_inv tz count startTime delay cap senderId Hd Hc)
    as [st I].
  exact (inv_cap _ _ _ _ _ I h Hh).
Qed.

Lemma planner_hourly_cap_witness :
  count_in 1735725600000
    (calculateScheduledTimes 0 4 1735729140000 0 2 None) <= 2.
Proof. apply (planner_hourly_cap 0); [lia | lia | reflexivity]. Defined.

(** C5, as stated, fails in a zone at a half-hour offset: with the
    process in UTC+05:30 the hour buckets start at :30 UTC, and the plan
    for count = 4, start = 2025-01-01T10:59:00Z, spacing = 30 s, cap = 2
    is 10:59:00, 10:59:30, 11:30:00, 11:30:30 (UTC). *)
Lemma planner_example_half_hour_zone :
  calculateScheduledTimes 19800000 4 1735729140000 30 2 None
  = [1735729140000; 1735729170000; 1735731000000; 1735731030000]
  /\ calculateScheduledTimes 19800000 4 1735729140000 30 2 None
     <> [1735729140000; 1735729170000; 1735729200000; 1735729230000].
Proof. split; [reflexivity | discriminate]. Qed.

(** C5, amended.  In a process whose zone keeps one UTC offset (no
    daylight-saving change), for spacing >= 0 and cap >= 1, of two
    consecutive planned instants [a], [b]: if they lie in the same local
    clock hour
    then [b] is [a] plus the spacing; if the hour of [a] already holds
    [cap] instants and [a] plus the spacing is still in that hour, then
    [b] is the start of the next hour (minutes, seconds and milliseconds
    zero); and [b] is always one of the two.  When the local zone is at a
    whole-hour offset from UTC, the plan for count = 4,
    start = 2025-01-01T10:59:00Z, spacing = 30 s, cap = 2 is
    10:59:00, 10:59:30, 11:00:00, 11:00:30. *)
Theorem planner_spacing tz count startTime delay cap senderId :
  0 <= delay -> 1 <= cap ->
  let l := calculateScheduledTimes tz count startTime delay cap senderId in
  let spacing := delay * MS_PER_SECOND in
  (forall (i : nat) a b,
     l !! i = Some a -> l !! S i = Some b ->
     (setMinutes000 tz a = setMinutes000 tz b -> b = a + spacing)
     /\ (count_in (setMinutes000 tz a) (take (S i) l) = cap ->
         setMinutes000 tz (a + spacing) = setMinutes000 tz a ->
         b = setMinutes000 tz a + MS_PER_HOUR /\ hour_aligned tz b)
     /\ (b = a + spacing \/ b = setMinutes000 tz a + MS_PER_HOUR))
  /\ (forall k,
        calculateScheduledTimes (MS_PER_HOUR * k) 4 1735729140000 30 2 senderId
        = [1735729140000; 1735729170000; 1735729200000; 1735729230000]).
Proof.
  intros Hd Hc l spacing. split.
  - destruct (calculateScheduledTimes_inv tz count startTime delay cap senderId Hd Hc)
      as [st I].
    intros i a b Ha Hb. exact (inv_next _ _ _ _ _ I i a b Ha Hb).
  - intros k. rewrite calculateScheduledTimes_whole_hour. reflexivity.
Qed.

Lemma planner_spacing_witness :
  let l := calculateScheduledTimes 0 4 1735729140000 30 2 None in
  (forall (i : nat) a b,
     l !! i = Some a -> l !! S i = Some b ->
     (setMinutes000 0 a = setMinutes000 0 b -> b = a + 30 * MS_PER_SECOND)
     /\ (count_in (setMinutes000 0 a) (take (S i) l) = 2 ->
         setMinutes000 0 (a + 30 * MS_PER_SECOND) = setMinutes000 0 a ->
         b = setMinutes000 0 a + MS_PER_HOUR /\ hour_aligned 0 b)
     /\ (b = a + 30 * MS_PER_SECOND \/ b = setMinutes000 0 a + MS_PER_HOUR))
  /\ (forall k,
        calculateScheduledTimes (MS_PER_HOUR * k) 4 1735729140000 30 2 None
        = [1735729140000; 1735729170000; 1735729200000; 1735729230000]).
Proof. apply (planner_spacing 0 4 1735729140000 30 2 None); lia. Defined.

(** C10, as stated, fails: the plan depends on the zone of the process
    as well.  The same call, with the same arguments and the same store,
    resolves with 10:59:00, 10:59:30, 11:00:00, 11:00:30 in a process in
    UTC and with 10:59:00, 10:59:30, 11:30:00, 11:30:30 in a process in
    UTC+05:30. *)
Lemma planner_depends_on_zone :
  RateLimit.calculateScheduledTimes Sample.env_ok 4 Sample.t_1059 30 2 None
    Sample.world0
  = (Ok [1735729140000; 1735729170000; 1735729200000; 1735729230000],
     Sample.world0)
  /\ RateLimit.calculateScheduledTimes Sample.env_ist 4 Sample.t_1059 30 2 None
       Sample.world0
     = (Ok [1735729140000; 1735729170000; 1735731000000; 1735731030000],
        Sample.world0)
  /\ Env.now Sample.env_ist = Env.now Sample.env_ok
  /\ Env.tz Sample.env_ist = 19800000 /\ Env.tz Sample.env_ok = 0.
Proof. repeat split. Qed.

(** C10, amended.  In a zone of fixed offset the plan depends only on
    (count, startTime, delayBetweenEmails, hourlyLimit) and on the
    offset of the zone of the process modulo one hour: two calls made in
    zones whose offsets differ by whole hours, with any two sender ids,
    against any two states of the store, the counters and the queue,
    resolve with the same array and leave the state as it was. *)
Theorem planner_ignores_sender_and_counters
    env1 env2 k count startTime delay cap sender1 sender2 w1 w2 :
  Env.tz env2 = Env.tz env1 + MS_PER_HOUR * k ->
  exists l,
    RateLimit.calculateScheduledTimes env1 count startTime delay cap sender1 w1
      = (Js.Ok l, w1)
    /\ RateLimit.calculateScheduledTimes env2 count startTime delay cap sender2 w2
      = (Js.Ok l, w2).
Proof.
  intros Htz. unfold RateLimit.calculateScheduledTimes, Js.ret.
  eexists. split; [reflexivity|].
  rewrite Htz, calculateScheduledTimes_shift.
  unfold calculateScheduledTimes. reflexivity.
Qed.

Lemma planner_ignores_sender_and_counters_witness :
  exists l,
    RateLimit.calculateScheduledTimes Sample.env_ok 4 Sample.t_1059 30 2
      (Some "s1"%string) Sample.world0 = (Ok l, Sample.world0)
    /\ RateLimit.calculateScheduledTimes Sample.env_est 4 Sample.t_1059 30 2
         None Sample.world1_full = (Ok l, Sample.world1_full).
Proof.
  apply (planner_ignores_sender_and_counters Sample.env_ok Sample.env_est (-5)).
  reflexivity.
Defined.


(** C8 (the code departs from it).  The counters are kept per UTC hour
    ([getRateLimitKey] reads the UTC fields of the clock) while the reset
    instant is the start of the next hour of the local clock
    ([getNextHourStart] reads the local fields).  With the process in
    UTC+05:30 and the global counter of the hour at its limit, the check
    at 10:59:00Z refuses and reports 11:30:00Z as reset instant and next
    slot, although the hour of the counter ends at 11:00:00Z: the check
    at 11:00:05Z, on the same store, reads the counter of the new hour
    and allows the send with the whole quota. *)
Theorem check_reset_misses_counter_window :
  exists r r2,
    RateLimit.checkRateLimit Sample.cfg Sample.env_ist None Sample.world1_full
    = (Ok r, Sample.world1_full)
    /\ RateLimitCheck.allowed r = false
    /\ RateLimitCheck.resetTime r = 1735731000000
    /\ RateLimitCheck.nextAvailableSlot r = 1735731000000
    /\ nextUtcHourStart (Env.now Sample.env_ist) = 1735729200000
    /\ Env.now Sample.env_ist_later = 1735729205000
    /\ RateLimit.checkRateLimit Sample.cfg Sample.env_ist_later None
         Sample.world1_full
       = (Ok r2, Sample.world1_full)
    /\ RateLimitCheck.allowed r2 = true
    /\ RateLimitCheck.remaining r2 = 100.
Proof. eexists _, _. split; [reflexivity|]. repeat split. Qed.

(** The rest of the contract of the check.  For a non-negative global
    limit and a non-negative global count, every check resolves, writing
    nothing, with: remaining = min(globalLimit - globalCount,
    senderLimit - senderCount) clamped at 0, the sender term only when a
    sender id is given; allowed exactly when remaining > 0; resetTime
    what [getNextHourStart] gives; nextAvailableSlot = now when
    remaining > 0 and resetTime otherwise. *)
Lemma check_contract cfg env senderId w :
  0 <= Config.maxEmailsPerHour cfg ->
  0 <= Counts.globalCount env w ->
  exists r,
    RateLimit.checkRateLimit cfg env senderId w = (Ok r, w)
    /\ RateLimitCheck.remaining r =
         Z.max 0
           (if truthy senderId then
              Z.min (Config.maxEmailsPerHour cfg - Counts.globalCount env w)
                    (Config.maxEmailsPerHourPerSender cfg
                     - Counts.senderCount env senderId w)
            else Config.maxEmailsPerHour cfg - Counts.globalCount env w)
    /\ (RateLimitCheck.allowed r = true <-> 0 < RateLimitCheck.remaining r)
    /\ RateLimitCheck.resetTime r = getNextHourStart (Env.tz env) (Env.now env)
    /\ RateLimitCheck.nextAvailableSlot r =
         (if 0 <? RateLimitCheck.remaining r then Env.now env
          else RateLimitCheck.resetTime r).
Proof.
  intros HG Hg. eexists. split; [apply RateLimitFacts.checkRateLimit_run|].
  simpl. repeat split.
  - unfold RateLimit.quota. destruct (truthy senderId); lia.
  - intros H. by apply Z.ltb_lt.
  - intros H. by apply Z.ltb_lt.
Qed.

Example check_contract_at_the_limit :
  exists r,
    RateLimit.checkRateLimit Sample.cfg Sample.env_ok (Some "s1"%string)
      Sample.world1_full = (Ok r, Sample.world1_full)
    /\ RateLimitCheck.remaining r = 0
    /\ RateLimitCheck.resetTime r = 1735729200000
    /\ RateLimitCheck.nextAvailableSlot r = 1735729200000.
Proof.
  destruct (check_contract Sample.cfg Sample.env_ok (Some "s1"%string)
              Sample.world1_full) as (r & Hr & Hrem & _ & Hreset & Hslot).
  - vm_compute. discriminate.
  - vm_compute. discriminate.
  - exists r. rewrite Hslot, Hreset, Hrem. split; [exact Hr|]. by vm_compute.
Defined.

(** C6. If adding the jobs to the queue fails after the batch and its
    message rows were created, [scheduleEmails] replies with a failure
    (status 500, [success: false], an error text) and leaves every row of
    that batch [FAILED] with the queue error's message; in particular
    each created row is [FAILED], and no row of the batch is
    [SCHEDULED]. *)
Theorem enqueue_failure_marks_batch_failed
    cfg env userId req w sid bid ems w1 qe :
  Env.queueError env = Some qe ->
  Controller.resolveSender userId (Controller.ScheduleRequest.senderId req) w
    = (Ok (inl sid), w) ->
  truthy (Some sid) = true ->
  Controller.createBatchAndEmails env userId req sid
    (Planner.calculateScheduledTimes (Env.tz env)
       (Z.of_nat (length (Controller.ScheduleRequest.recipients req)))
       (Controller.ScheduleRequest.startTime req)
       (Controller.ScheduleRequest.delayBetweenEmails req)
       (Controller.ScheduleRequest.hourlyLimit req) (Some sid)) w
    = (Ok (bid, ems), w1) ->
  exists reply w',
    Controller.scheduleEmails cfg env userId req w = (Ok reply, w')
    /\ Controller.Response.success reply = false
    /\ Controller.Response.statusCode reply = 500
    /\ is_Some (Controller.Response.error reply)
    /\ (forall id e, World.emails w' !! id = Some e ->
          Email.batchId e = Some bid ->
          Email.status e = FAILED
          /\ Email.errorMessage e
             = Some (message_or qe "Failed to add to queue (System Error)")
          /\ Email.status e <> SCHEDULED)
    /\ Forall (fun r : string * Email.t =>
                 exists e, World.emails w' !! r.1 = Some e
                           /\ Email.batchId e = Some bid
                           /\ Email.status e = FAILED) ems.
Proof.
  intros Hq Hres Hsid Hcreate.
  pose proof (ControllerFacts.createBatchAndEmails_rows _ _ _ _ _ _ _ _ _ Hcreate)
    as Hrows.
  unfold Controller.scheduleEmails. unfold tryCatch at 1. unfold bind at 1.
  rewrite Hres. cbn beta iota. rewrite Hsid. cbn [negb].
  unfold bind at 1. unfold RateLimit.calculateScheduledTimes, ret at 1.
  unfold bind at 1. rewrite Hcreate. cbn beta iota.
  unfold tryCatch at 1.
  rewrite (ControllerFacts.enqueueAndLink_queue_down _ _ _ _ _ _ _ _ _ Hq).
  unfold Controller.markBatchFailed, bind, throw, Prisma.email_updateMany_batch,
    Controller.scheduleEmails_catch, ret.
  cbn beta iota.
  eexists _, _. split; [reflexivity|].
  destruct w1 as [em bt sd rc rd q n ob sl].
  cbn [World.emails World.set_emails World.set_statusLog] in *.
  assert (Hall : forall id e,
            (fmap (fun e0 : Email.t =>
               if bool_decide (Email.batchId e0 = Some bid)
               then Patch.apply
                      (Patch.mk (Some FAILED) None
                         (Some (message_or qe "Failed to add to queue (System Error)"))
                         None None None None) e0
               else e0) em) !! id = Some e ->
            Email.batchId e = Some bid ->
            Email.status e = FAILED
            /\ Email.errorMessage e
               = Some (message_or qe "Failed to add to queue (System Error)")).
  { intros id e. rewrite lookup_fmap.
    destruct (em !! id) as [e0|]; [|done]. simpl. intros [= <-].
    case_bool_decide as Hb; [done|]. intros Hb'. by destruct Hb. }
  split; [reflexivity|]. split; [reflexivity|]. split; [by eexists|].
  split.
  - intros id e H Hb. destruct (Hall id e H Hb) as [Hs Hm].
    rewrite Hs. done.
  - eapply Forall_impl; [exact Hrows|]. simpl. intros [id e0] (Hl & Hb & _).
    simpl in *. eexists. rewrite lookup_fmap, Hl. simpl.
    rewrite bool_decide_eq_true_2 by done. done.
Qed.

Lemma enqueue_failure_marks_batch_failed_witness :
  exists reply w',
    Controller.scheduleEmails Sample.cfg Sample.env_queue_down "u1"
      Sample.request2 Sample.world0 = (Ok reply, w')
    /\ Controller.Response.success reply = false
    /\ Controller.Response.statusCode reply = 500
    /\ (forall id e, World.emails w' !! id = Some e ->
          Email.batchId e = Some "uuid-0"%string ->
          Email.status e = FAILED
          /\ Email.errorMessage e = Some "connect ECONNREFUSED 127.0.0.1:6379"%string
          /\ Email.status e <> SCHEDULED).
Proof.
  edestruct (enqueue_failure_marks_batch_failed Sample.cfg Sample.env_queue_down
               "u1" Sample.request2 Sample.world0 "s1" "uuid-0")
    as (reply & w' & Hrun & Hok & Hcode & _ & Hall & _).
  - reflexivity.
  - reflexivity.
  - reflexivity.
  - vm_compute. reflexivity.
  - exists reply, w'. repeat split; try done; by apply (Hall id e).
Defined.

(** C1 (the code departs from it).  A message with one retry used out
    of three whose send fails: the worker writes [SCHEDULED], the error
    and [retryCount = 1], but [processEmailJob] resolves with
    [success: false] instead of rejecting, so BullMQ completes the job at
    its first delivery.  With a transport that fails twice and then
    succeeds, the transport is called once, nothing is queued again, and
    the message stays [SCHEDULED] with [retryCount = 1]; it never
    reaches [SENT]. *)
Theorem transport_failure_completes_job :
  exists w',
    Bull.run Sample.cfg [Sample.env_fail; Sample.env_fail; Sample.env_ok] 0
      Sample.job1 Sample.world1
    = (Bull.Completed
         (EmailJobResult.mk false None None (Some "read ECONNRESET")), w')
    /\ World.emails w' !! "m1"
       = Some (Email.mk "u1" (Some "s1") "a@example.com" "Hello" "<p>Hi</p>"
                 Sample.t_1059 None SCHEDULED (Some "read ECONNRESET") 1 3
                 (Some "email-m1-attempt-1") None None (Some "b1") (Some 0))
    /\ length (World.outbox w') = 1%nat
    /\ World.queue w' = []
    /\ World.statusLog w'
       = [mkStatusWrite "m1" SCHEDULED PROCESSING;
          mkStatusWrite "m1" PROCESSING SCHEDULED].
Proof. eexists. split; [vm_compute; reflexivity|]. by vm_compute. Qed.

(** C7 (the code departs from it).  A job whose row was deleted by
    [cancelEmail]: the first update rejects, the failure handler finds no
    row and its own update rejects too, so [processEmailJob] rejects.
    The transport is not called and nothing is written, but BullMQ counts
    a failed attempt, delivers the job again until its attempts are used
    up, and moves it to the failed set; it is never completed. *)
Theorem missing_row_job_fails :
  let w := (Controller.cancelEmail "u1" "m1" Sample.world1).2 in
  World.emails w !! "m1" = None
  /\ Worker.processEmailJob Sample.cfg Sample.env_ok "email-m1-attempt-1"
       Sample.data1 w
     = (Throw Prisma.P2025, w)
  /\ Bull.run Sample.cfg [Sample.env_ok; Sample.env_ok; Sample.env_ok] 0
       Sample.job1 w
     = (Bull.Failed Prisma.P2025, w)
  /\ World.outbox w = []
  /\ World.statusLog w = [].
Proof. by vm_compute. Qed.

(** C2 (the code departs from it).  [FAILED] is not terminal, and a
    cancelled message is sent.  A batch of two is scheduled at 10:59:00;
    the second message is due at 10:59:30.  The earlier [cancelEmail]
    marks it [FAILED] and answers 200, leaving its job in the queue;
    when that job is delivered, at 11:00:05, the worker writes
    [PROCESSING] over [FAILED] (its write on dequeue has no guard), hands
    the message to the transport and writes [SENT]. *)
Theorem cancelled_message_is_sent :
  let w1 := (Controller.scheduleEmails Sample.cfg Sample.env_ok "u1"
               Sample.request2 Sample.world0).2 in
  let c := Controller.cancelEmail_dist "u1" "uuid-2" w1 in
  let w3 := match World.queue c.2 with
            | _ :: j :: _ => (Bull.run Sample.cfg [Sample.env_later] 0 j c.2).2
            | _ => c.2
            end in
  Email.status <$> World.emails w1 !! "uuid-2" = Some SCHEDULED
  /\ c.1 = Ok (Controller.Response.mk 200 true None
                (Some "Email cancelled successfully") None)
  /\ Email.status <$> World.emails c.2 !! "uuid-2" = Some FAILED
  /\ (fun j => (Job.id j, Job.delay j)) <$> World.queue c.2
     = [("email-uuid-1-attempt-1"%string, 0);
        ("email-uuid-2-attempt-1"%string, 30000)]
  /\ World.statusLog w3
     = [mkStatusWrite "uuid-2" SCHEDULED FAILED;
        mkStatusWrite "uuid-2" FAILED PROCESSING;
        mkStatusWrite "uuid-2" PROCESSING SENT]
  /\ Email.status <$> World.emails w3 !! "uuid-2" = Some SENT
  /\ SendEmailOptions.to <$> World.outbox w3 = ["b@example.com"%string]
  /\ ~ Legal.enumerated FAILED PROCESSING.
Proof.
  cbv zeta. do 7 (split; [by vm_compute|]).
  unfold Legal.enumerated. intros H.
  repeat (destruct H as [[? ?]|H]; [discriminate|]).
  destruct H; discriminate.
Qed.

(** C9, as stated, fails on the recovery from an enqueue failure: the
    rows of the batch are marked [FAILED] with the queue error as their
    message while [retryCount] stays 0, below [maxRetries = 3], and no
    cancellation took place. *)
Lemma enqueue_failure_breaks_retry_bound :
  Invariant.store_inv Invariant.retry_bound Sample.world0
  /\ exists e,
       World.emails
         (Controller.scheduleEmails Sample.cfg Sample.env_queue_down "u1"
            Sample.request2 Sample.world0).2 !! "uuid-1" = Some e
       /\ Email.status e = FAILED
       /\ Email.retryCount e = 0
       /\ Email.maxRetries e = 3
       /\ Email.errorMessage e = Some "connect ECONNREFUSED 127.0.0.1:6379"%string
       /\ ~ Invariant.explicitly_cancelled e
       /\ ~ Invariant.retry_bound e.
Proof.
  split; [apply map_Forall_empty|].
  eexists. split; [vm_compute; reflexivity|].
  split; [reflexivity|]. split; [reflexivity|]. split; [reflexivity|].
  split; [reflexivity|]. split; [discriminate|].
  intros (_ & Hex). destruct (Hex eq_refl) as [H|H].
  - simpl in H. lia.
  - discriminate H.
Qed.

(** C9, amended.  Each of the operations that write message state (one
    delivery of a job by the worker, [scheduleEmails] with its recovery
    from an enqueue failure, the cancellation that deletes the row and
    the earlier cancellation that marks it [FAILED]) keeps, on its own,
    "every [FAILED] row has an error message".  One delivery by the
    worker and both cancellations also keep, on its own, "retry counts
    are non-negative and every [FAILED] row has [retryCount >=
    maxRetries] unless it was cancelled by the user"; [scheduleEmails]
    does not keep that. *)
Theorem failed_rows_invariant cfg env :
  (forall w,
     Invariant.store_inv Invariant.failed_has_error w ->
     (forall jobId data,
        Invariant.store_inv Invariant.failed_has_error
          (Worker.processEmailJob cfg env jobId data w).2)
     /\ (forall userId req,
           Invariant.store_inv Invariant.failed_has_error
             (Controller.scheduleEmails cfg env userId req w).2)
     /\ (forall userId id,
           Invariant.store_inv Invariant.failed_has_error
             (Controller.cancelEmail userId id w).2)
     /\ (forall userId id,
           Invariant.store_inv Invariant.failed_has_error
             (Controller.cancelEmail_dist userId id w).2))
  /\ (forall w,
        Invariant.store_inv Invariant.retry_bound w ->
        (forall jobId data,
           Invariant.store_inv Invariant.retry_bound
             (Worker.processEmailJob cfg env jobId data w).2)
        /\ (forall userId id,
              Invariant.store_inv Invariant.retry_bound
                (Controller.cancelEmail userId id w).2)
        /\ (forall userId id,
              Invariant.store_inv Invariant.retry_bound
                (Controller.cancelEmail_dist userId id w).2)).
Proof.
  split; intros w Hinv.
  - split; [|split; [|split]].
    + intros jobId data. by apply WorkerFacts.processEmailJob_failed_has_error.
    + intros userId req. by apply ControllerFacts.scheduleEmails_failed_has_error.
    + intros userId id.
      destruct (ControllerFacts.cancelEmail_effect userId id w) as [_ [He|He]];
        unfold Invariant.store_inv; rewrite He; [exact Hinv|].
      by apply map_Forall_delete.
    + intros userId id.
      destruct (ControllerFacts.cancelEmail_dist_effect userId id w)
        as [->|(e & He & Hs & Hem & _)]; [exact Hinv|].
      unfold Invariant.store_inv. rewrite Hem.
      apply map_Forall_insert_2; [|exact Hinv]. intros _. discriminate.
  - split; [|split].
    + intros jobId data. by apply WorkerFacts.processEmailJob_retry_bound.
    + intros userId id.
      destruct (ControllerFacts.cancelEmail_effect userId id w) as [_ [He|He]];
        unfold Invariant.store_inv; rewrite He; [exact Hinv|].
      by apply map_Forall_delete.
    + intros userId id.
      destruct (ControllerFacts.cancelEmail_dist_effect userId id w)
        as [->|(e & He & Hs & Hem & _)]; [exact Hinv|].
      unfold Invariant.store_inv. rewrite Hem.
      apply map_Forall_insert_2; [|exact Hinv].
      destruct (map_Forall_lookup_1 _ _ _ _ Hinv He) as (Hrc & _).
      split; [exact Hrc|]. intros _. right. reflexivity.
Qed.

(** The theorem at a store that holds a [FAILED] row: [m1] after its
    last retry failed.  The row is delivered once more and fails again,
    a batch is scheduled while the queue rejects, and the row is
    cancelled. *)
Lemma failed_rows_invariant_witness :
  let wF := (Worker.processEmailJob Sample.cfg Sample.env_fail
               "email-m1-attempt-1" Sample.data1 Sample.world1_last_try).2 in
  let wF2 := (Worker.processEmailJob Sample.cfg Sample.env_fail
                "email-m1-attempt-1" Sample.data1 wF).2 in
  (Email.status <$> World.emails wF !! "m1" = Some FAILED
   /\ Email.retryCount <$> World.emails wF !! "m1" = Some 3
   /\ Invariant.store_inv Invariant.failed_has_error wF
   /\ Invariant.store_inv Invariant.retry_bound wF)
  /\ (Email.status <$> World.emails wF2 !! "m1" = Some FAILED
      /\ Email.retryCount <$> World.emails wF2 !! "m1" = Some 4
      /\ Invariant.store_inv Invariant.failed_has_error wF2
      /\ Invariant.store_inv Invariant.retry_bound wF2)
  /\ Invariant.store_inv Invariant.failed_has_error
       (Controller.scheduleEmails Sample.cfg Sample.env_queue_down "u1"
          Sample.request2 wF).2
  /\ Invariant.store_inv Invariant.failed_has_error
       (Controller.cancelEmail "u1" "m1" wF).2
  /\ Invariant.store_inv Invariant.retry_bound
       (Controller.cancelEmail_dist "u1" "m1" wF).2.
Proof.
  cbv zeta.
  assert (H0 : Invariant.store_inv Invariant.failed_has_error
                 Sample.world1_last_try).
  { apply map_Forall_singleton. intros H; discriminate H. }
  assert (H1 : Invariant.store_inv Invariant.retry_bound Sample.world1_last_try).
  { apply map_Forall_singleton. split; [simpl; lia|]. intros H; discriminate H. }
  destruct (failed_rows_invariant Sample.cfg Sample.env_fail) as [Herr Hbound].
  destruct (failed_rows_invariant Sample.cfg Sample.env_queue_down) as [Herr' _].
  pose proof (proj1 (Herr _ H0) "email-m1-attempt-1"%string Sample.data1) as HF.
  pose proof (proj1 (Hbound _ H1) "email-m1-attempt-1"%string Sample.data1) as HB.
  split; [|split; [|split; [|split]]].
  - split; [by vm_compute|]. split; [by vm_compute|]. split; [exact HF|exact HB].
  - split; [by vm_compute|]. split; [by vm_compute|].
    split; [apply (Herr _ HF)|apply (Hbound _ HB)].
  - apply (Herr' _ HF).
  - apply (Herr _ HF).
  - apply (Hbound _ HB).
Defined.

(** * Further properties *)

Module PlannerMore.

(** While fewer instants were pushed than the cap allows, the loop has
    pushed [start], [start + d], [start + 2 d], ... *)
Lemma plan_loop_under_cap tz delay cap startTime n : forall st acc,
  Z.of_nat (length acc) + Z.of_nat n <= cap ->
  emailsInCurrentHour st <= Z.of_nat (length acc) ->
  currentTime st = startTime + Z.of_nat (length acc) * (delay * MS_PER_SECOND) ->
  (forall (i : nat) t, acc !! i = Some t ->
     t = startTime + Z.of_nat i * (delay * MS_PER_SECOND)) ->
  forall (i : nat) t,
    plan_loop tz n delay cap st acc !! i = Some t ->
    t = startTime + Z.of_nat i * (delay * MS_PER_SECOND).
Proof.
  induction n as [|n IH]; intros st acc Hcap Hem Hct Hacc; cbn [plan_loop];
    [exact Hacc|].
  unfold plan_step, limit_check.
  destruct (Z.leb_spec cap (emailsInCurrentHour st)) as [Hfull|Hroom]; [lia|].
  apply IH.
  - rewrite length_app. simpl. lia.
  - rewrite length_app. simpl. unfold advance.
    destruct (_ <? _); simpl; lia.
  - rewrite length_app. simpl. unfold advance.
    destruct (_ <? _); simpl; lia.
  - intros i t Hi. apply lookup_snoc_Some in Hi as [[Hlt Hi]|[-> <-]].
    + by apply Hacc.
    + exact Hct.
Qed.

(** The loop only appends. *)
Lemma plan_loop_prefix tz delay cap n : forall st acc (i : nat) t,
  acc !! i = Some t -> plan_loop tz n delay cap st acc !! i = Some t.
Proof.
  induction n as [|n IH]; intros st acc i t Hi; cbn [plan_loop]; [done|].
  destruct (plan_step tz delay cap st) as [u st']. apply IH.
  by apply lookup_app_l_Some.
Qed.

End PlannerMore.

(** X1. A batch that fits under the hourly limit (count <= hourlyLimit)
    is laid out at exactly [startTime + i * delayBetweenEmails] seconds,
    whatever the zone and wherever the hours fall. *)
Theorem planner_even_spacing_under_cap
    tz count startTime delay cap senderId (i : nat) t :
  count <= cap ->
  calculateScheduledTimes tz count startTime delay cap senderId !! i = Some t ->
  t = startTime + Z.of_nat i * (delay * MS_PER_SECOND).
Proof.
  intros Hcap. unfold calculateScheduledTimes.
  destruct (Z.le_gt_cases count 0) as [Hneg|Hpos].
  { replace (Z.to_nat count) with 0%nat by lia. done. }
  apply PlannerMore.plan_loop_under_cap.
  - simpl. lia.
  - simpl. lia.
  - simpl. lia.
  - intros j u Hj. done.
Qed.

Lemma planner_even_spacing_under_cap_witness :
  1735725660000 = 1735725600000 + Z.of_nat 2 * (30 * MS_PER_SECOND).
Proof.
  apply (planner_even_spacing_under_cap 0 3 1735725600000 30 100 None 2);
    [lia | reflexivity].
Defined.

(** X2. For spacing >= 0 and cap >= 1, a non-empty plan starts at
    [startTime] itself and no instant is before [startTime]. *)
Theorem planner_starts_at_start tz count startTime delay cap senderId :
  0 <= delay -> 1 <= cap -> 1 <= count ->
  let l := calculateScheduledTimes tz count startTime delay cap senderId in
  l !! 0%nat = Some startTime
  /\ forall (i : nat) t, l !! i = Some t -> startTime <= t.
Proof.
  intros Hd Hc Hn l.
  assert (H0 : l !! 0%nat = Some startTime).
  { unfold l, calculateScheduledTimes.
    destruct (Z.to_nat count) as [|n] eqn:E; [lia|].
    cbn [plan_loop]. unfold plan_step, limit_check. cbn [emailsInCurrentHour].
    destruct (Z.leb_spec cap 0); [lia|].
    by apply PlannerMore.plan_loop_prefix. }
  split; [exact H0|]. intros i t Hi.
  destruct (calculateScheduledTimes_inv tz count startTime delay cap senderId Hd Hc)
    as [st I].
  apply (inv_mono _ _ _ _ _ I 0%nat i startTime t); [lia|exact H0|exact Hi].
Qed.

Lemma planner_starts_at_start_witness :
  let l := calculateScheduledTimes 19800000 4 1735729140000 30 2 None in
  l !! 0%nat = Some 1735729140000
  /\ forall (i : nat) t, l !! i = Some t -> 1735729140000 <= t.
Proof. apply planner_starts_at_start; lia. Defined.

Module QueueFacts.

Lemma append_cons x (a b : string) : String x a +:+ b = String x (a +:+ b).
Proof. reflexivity. Qed.

Lemma append_assoc (a b c : string) : (a +:+ b) +:+ c = a +:+ (b +:+ c).
Proof.
  induction a as [|x a IH]; [done|]. by rewrite !append_cons, IH.
Qed.

Lemma length_append (a b : string) :
  String.length (a +:+ b) = (String.length a + String.length b)%nat.
Proof.
  induction a as [|x a IH]; [done|]. rewrite append_cons. simpl. by rewrite IH.
Qed.

Lemma append_inv_tail (a b s : string) : a +:+ s = b +:+ s -> a = b.
Proof.
  revert b. induction a as [|x a IH]; intros [|y b] H.
  - done.
  - apply (f_equal String.length) in H.
    rewrite !length_append in H. simpl in H. lia.
  - apply (f_equal String.length) in H.
    rewrite !length_append in H. simpl in H. lia.
  - rewrite !append_cons in H. injection H as -> H. f_equal. by apply IH.
Qed.

(** Whether the queue holds a job of that id. *)
Lemma existsb_id j (q : list Job.t) :
  existsb (fun j' => String.eqb (Job.id j') (Job.id j)) q = true
  <-> Job.id j ∈ Job.id <$> q.
Proof.
  rewrite existsb_exists, list_elem_of_fmap. split.
  - intros (j' & Hin & Heq). apply String.eqb_eq in Heq.
    exists j'. split; [done|]. by apply list_elem_of_In.
  - intros (j' & Heq & Hin). exists j'. split; [by apply list_elem_of_In|].
    by apply String.eqb_eq.
Qed.

Lemma enqueue_elem j q : Job.id j ∈ Job.id <$> EmailQueue.enqueue j q.
Proof.
  unfold EmailQueue.enqueue.
  destruct (existsb _ q) eqn:E.
  - by apply existsb_id.
  - rewrite fmap_app. apply elem_of_app. right. simpl. by left.
Qed.

(** Jobs already held are kept, in place. *)
Lemma enqueue_keeps j q x : x ∈ q -> x ∈ EmailQueue.enqueue j q.
Proof.
  intros Hx. unfold EmailQueue.enqueue. destruct (existsb _ q); [done|].
  apply elem_of_app. by left.
Qed.

End QueueFacts.

(** X3. Job ids tell attempts and messages apart: for one message,
    two attempt numbers give the same id only if they are equal, and at
    one attempt number two messages give the same id only if they are
    the same message. *)
Theorem generateJobId_separates emailId1 emailId2 attempt1 attempt2 :
  EmailQueue.generateJobId emailId1 attempt1
  = EmailQueue.generateJobId emailId2 attempt2 ->
  (emailId1 = emailId2 <-> attempt1 = attempt2).
Proof.
  unfold EmailQueue.generateJobId. intros H.
  apply (inj (String.append "email-")) in H. split.
  - intros <-. apply (inj (String.append emailId1)) in H.
    apply (inj (String.append "-attempt-")) in H.
    by apply (inj pretty) in H.
  - intros <-. rewrite <- !QueueFacts.append_assoc in H.
    apply QueueFacts.append_inv_tail in H.
    by apply QueueFacts.append_inv_tail in H.
Qed.

Lemma generateJobId_separates_witness :
  ("m1"%string = "m1"%string <-> 1 = 1).
Proof. apply (generateJobId_separates "m1" "m1" 1 1). reflexivity. Defined.

Module UpkeepFacts.
Import Upkeep.

Lemma ceil_div_spec a b : 0 < b ->
  (ceil_div a b - 1) * b < a <= ceil_div a b * b.
Proof.
  intros Hb. unfold ceil_div.
  pose proof (Z.div_mod (- a) b). pose proof (Z.mod_pos_bound (- a) b). nia.
Qed.

Lemma ceil_div_unique a b q : 0 < b -> (q - 1) * b < a <= q * b -> ceil_div a b = q.
Proof.
  intros Hb Hq. pose proof (ceil_div_spec a b Hb). nia.
Qed.

(** The seconds until the next local hour round the remaining
    milliseconds up. *)
Lemma seconds_spec env :
  let secs := getSecondsUntilNextHour env in
  let nextHour := getNextHourStart (Env.tz env) (Env.now env) in
  1 <= secs <= 3600
  /\ nextHour <= Env.now env + secs * MS_PER_SECOND < nextHour + MS_PER_SECOND.
Proof.
  cbv zeta. unfold getSecondsUntilNextHour, getNextHourStart, getCurrentHourStart,
    setHoursPlus1.
  pose proof (floor_bounds (Env.tz env) (Env.now env)) as Hb.
  set (f := setMinutes000 (Env.tz env) (Env.now env)) in *.
  pose proof (ceil_div_spec (f + MS_PER_HOUR - Env.now env) MS_PER_SECOND) as Hc.
  unfold MS_PER_HOUR, MS_PER_SECOND in *. lia.
Qed.

(** In a zone at a whole-hour offset the local hours are the UTC hours. *)
Lemma next_hour_whole_hour k t :
  getNextHourStart (MS_PER_HOUR * k) t = nextUtcHourStart t.
Proof.
  unfold getNextHourStart, getCurrentHourStart, setHoursPlus1, nextUtcHourStart.
  rewrite floor_whole_hour, floor_div. unfold MS_PER_HOUR. rewrite Z.add_0_r. lia.
Qed.

End UpkeepFacts.


Module CounterFacts.
Import RateLimit.

(** The counts the check reads after a send was counted, Redis
    answering. *)
Lemma incrementRateLimit_counts env senderId w :
  Env.redisUp env = true ->
  exists w',
    incrementRateLimit env senderId w = (Ok tt, w')
    /\ Counts.globalCount env w' = Counts.globalCount env w + 1
    /\ Counts.senderCount env senderId w'
       = (if truthy senderId then Counts.senderCount env senderId w + 1 else 0)
    /\ World.emails w' = World.emails w
    /\ World.queue w' = World.queue w.
Proof.
  intros Hup.
  unfold incrementRateLimit, updateDBRateLimit, redis_incr,
    Prisma.rateLimitCounter_upsert, tryCatch, bind, ret, throw, when, modify,
    Counts.globalCount, Counts.senderCount.
  rewrite Hup. destruct w as [em bt sd rc rd q n ob sl].
  destruct (truthy senderId) eqn:Ht; cbn.
  - eexists. split; [reflexivity|]. cbn.
    unfold getRateLimitKey. rewrite Ht. cbn.
    assert (senderId <> None) as Hne.
    { intros ->. discriminate Ht. }
    rewrite lookup_insert_ne by congruence.
    rewrite !lookup_insert_eq. cbn.
    rewrite lookup_insert_ne by congruence.
    done.
  - eexists. split; [reflexivity|]. cbn.
    unfold getRateLimitKey. cbn. rewrite lookup_insert_eq. done.
Qed.

Lemma quota_after_send cfg senderId g s :
  0 <= Config.maxEmailsPerHour cfg -> 0 <= g ->
  quota cfg senderId (g + 1) (if truthy senderId then s + 1 else 0)
  = Z.max 0 (quota cfg senderId g (if truthy senderId then s else 0) - 1).
Proof. intros HG Hg. unfold quota. destruct (truthy senderId); lia. Qed.

Lemma senderCount_falsy env senderId w :
  truthy senderId = false -> Counts.senderCount env senderId w = 0.
Proof. unfold Counts.senderCount. by intros ->. Qed.

End CounterFacts.

(** X6. Counting a send lowers the quota by one: with Redis answering,
    a non-negative global limit and count, [incrementRateLimit] resolves
    and the check that follows reports the remaining quota of the check
    before, less one and not below zero. *)
Theorem increment_lowers_remaining cfg env senderId w :
  Env.redisUp env = true ->
  0 <= Config.maxEmailsPerHour cfg ->
  0 <= Counts.globalCount env w ->
  exists r r' w',
    RateLimit.checkRateLimit cfg env senderId w = (Ok r, w)
    /\ RateLimit.incrementRateLimit env senderId w = (Ok tt, w')
    /\ RateLimit.checkRateLimit cfg env senderId w' = (Ok r', w')
    /\ RateLimitCheck.remaining r' = Z.max 0 (RateLimitCheck.remaining r - 1).
Proof.
  intros Hup HG Hg.
  destruct (CounterFacts.incrementRateLimit_counts env senderId w Hup)
    as (w' & Hinc & Hgc & Hsc & _).
  eexists _, _, w'. rewrite !RateLimitFacts.checkRateLimit_run.
  split; [reflexivity|]. split; [exact Hinc|]. split; [reflexivity|].
  cbn [RateLimitCheck.remaining]. rewrite Hgc, Hsc.
  rewrite CounterFacts.quota_after_send by done.
  destruct (truthy senderId) eqn:Ht; [done|].
  by rewrite CounterFacts.senderCount_falsy.
Qed.

Lemma increment_lowers_remaining_witness :
  exists r r' w',
    RateLimit.checkRateLimit Sample.cfg Sample.env_ok (Some "s1"%string) Sample.world1
      = (Ok r, Sample.world1)
    /\ RateLimit.incrementRateLimit Sample.env_ok (Some "s1"%string) Sample.world1
       = (Ok tt, w')
    /\ RateLimit.checkRateLimit Sample.cfg Sample.env_ok (Some "s1"%string) w'
       = (Ok r', w')
    /\ RateLimitCheck.remaining r' = Z.max 0 (RateLimitCheck.remaining r - 1).
Proof.
  apply increment_lowers_remaining; [reflexivity | vm_compute; discriminate
                                    | vm_compute; discriminate].
Defined.



(** X8. [getSecondsUntilNextHour] is at least 1, and that many seconds
    from now is at or past the instant [nextHour] that the function
    computes, by less than one second: the remaining milliseconds are
    rounded up to whole seconds. *)
Theorem seconds_until_next_hour_rounds_up env :
  1 <= Upkeep.getSecondsUntilNextHour env
  /\ getNextHourStart (Env.tz env) (Env.now env)
     <= Env.now env + Upkeep.getSecondsUntilNextHour env * MS_PER_SECOND
     < getNextHourStart (Env.tz env) (Env.now env) + MS_PER_SECOND.
Proof.
  destruct (UpkeepFacts.seconds_spec env) as [[Hlo _] Hround].
  split; [exact Hlo|exact Hround].
Qed.

(** X9. When the local zone is at a whole-hour offset from UTC, the
    time-to-live that [incrementRateLimit] sets on a counter key ends
    at least 60 seconds after the UTC hour named by the key. *)
Theorem counter_ttl_outlives_utc_hour env k :
  Env.tz env = MS_PER_HOUR * k ->
  nextUtcHourStart (Env.now env) + 60 * MS_PER_SECOND
  <= Env.now env + Upkeep.counter_ttl env * MS_PER_SECOND.
Proof.
  intros Htz. pose proof (UpkeepFacts.seconds_spec env) as [_ H].
  rewrite Htz, UpkeepFacts.next_hour_whole_hour in H.
  unfold Upkeep.counter_ttl. unfold MS_PER_SECOND in *. lia.
Qed.

Lemma counter_ttl_outlives_utc_hour_witness :
  nextUtcHourStart (Env.now Sample.env_ok) + 60 * MS_PER_SECOND
  <= Env.now Sample.env_ok + Upkeep.counter_ttl Sample.env_ok * MS_PER_SECOND.
Proof. apply (counter_ttl_outlives_utc_hour Sample.env_ok 0). reflexivity. Defined.


Module FrameFacts.
Import Frame.

Lemma same_content_refl e : same_content e e.
Proof. unfold same_content. by repeat split. Qed.

Lemma same_content_trans a b c :
  same_content a b -> same_content b c -> same_content a c.
Proof.
  unfold same_content. intros (?&?&?&?&?&?&?&?&?) (?&?&?&?&?&?&?&?&?).
  repeat split; congruence.
Qed.

Lemma only_row_refl id w : only_row id w w.
Proof.
  split; [done|]. split; [|done].
  destruct (World.emails w !! id); constructor.
  split; [apply same_content_refl|lia].
Qed.

Lemma only_row_trans id w1 w2 w3 :
  only_row id w1 w2 -> only_row id w2 w3 -> only_row id w1 w3.
Proof.
  intros (Ho1 & Hr1 & Hs1) (Ho2 & Hr2 & Hs2). split; [|split].
  - intros id' Hid. rewrite Ho2, Ho1; done.
  - destruct Hr1 as [a b [Hab Hle]|]; inversion Hr2 as [b' c [Hbc Hle']|]; subst.
    + constructor. split; [by eapply same_content_trans|lia].
    + constructor.
  - congruence.
Qed.

(** The counts read from Redis depend on the Redis store only. *)
Lemma counts_redis env senderId w1 w2 :
  Env.redisUp env = true ->
  World.redis w1 = World.redis w2 ->
  Counts.globalCount env w1 = Counts.globalCount env w2
  /\ Counts.senderCount env senderId w1 = Counts.senderCount env senderId w2.
Proof.
  intros Hup Hrd. unfold Counts.globalCount, Counts.senderCount.
  rewrite Hup, Hrd. done.
Qed.

End FrameFacts.

(** X11. Through any number of deliveries of a job, whatever their
    outcomes, no message row is created or deleted, no row but the
    job's is written, the job's row keeps its owner, sender, recipient,
    subject, body, planned time, retry limit and batch, its retry count
    never goes down, and the senders are not written. *)
Theorem job_touches_only_its_row cfg envs attemptsMade j w :
  Frame.only_row (EmailJobData.emailId (Job.data j)) w
    (Bull.run cfg envs attemptsMade j w).2.
Proof.
  revert attemptsMade w.
  induction envs as [|env envs IH]; intros attemptsMade w; simpl.
  - apply FrameFacts.only_row_refl.
  - pose proof (WorkerFacts.processEmailJob_frame cfg env (Job.id j) (Job.data j) w)
      as Hstep.
    destruct (Worker.processEmailJob cfg env (Job.id j) (Job.data j) w)
      as [[r|e] w1]; simpl in *; [exact Hstep|].
    destruct (attemptsMade + 1 <? Job.attempts j); [|exact Hstep].
    eapply FrameFacts.only_row_trans; [exact Hstep|apply IH].
Qed.

(** X12. One delivery hands at most one envelope to the transport,
    addressed and filled from the job's data; the send is counted
    against the quota only if the transport accepted it, and a delivery
    that reached the transport adds no job to the queue. *)
Theorem delivery_sends_at_most_once cfg env jobId data w :
  let w' := (Worker.processEmailJob cfg env jobId data w).2 in
  (World.outbox w' = World.outbox w
   /\ World.redis w' = World.redis w
   /\ World.rateLimitCounters w' = World.rateLimitCounters w)
  \/ (exists o smtp,
        World.outbox w' = World.outbox w ++ [o]
        /\ SendEmailOptions.to o = EmailJobData.recipientEmail data
        /\ SendEmailOptions.subject o = EmailJobData.subject data
        /\ SendEmailOptions.html o = EmailJobData.body data
        /\ World.queue w' = World.queue w
        /\ (SendEmailResult.success (Env.transport env o smtp) = false ->
            World.redis w' = World.redis w
            /\ World.rateLimitCounters w' = World.rateLimitCounters w)).
Proof. exact (WorkerFacts.processEmailJob_sends cfg env jobId data w). Qed.

(** X13. A delivery refused by the rate limiter (Redis answering, no
    quota left, queue reachable) resolves with [success: false]; the row
    is [RATE_LIMITED] with its retry count as before; nothing is sent
    or counted; and the queue is offered the job of the next attempt,
    delayed until the instant [getNextHourStart] gives, which is after
    now. *)
Theorem refused_delivery_requeues cfg env jobId data w e :
  World.emails w !! EmailJobData.emailId data = Some e ->
  Env.redisUp env = true ->
  Env.queueError env = None ->
  RateLimit.quota cfg (EmailJobData.senderId data)
    (Counts.globalCount env w)
    (Counts.senderCount env (EmailJobData.senderId data) w) <= 0 ->
  exists r w' e' j,
    Worker.processEmailJob cfg env jobId data w = (Ok r, w')
    /\ EmailJobResult.success r = false
    /\ World.emails w' !! EmailJobData.emailId data = Some e'
    /\ Email.status e' = RATE_LIMITED
    /\ Email.retryCount e' = Email.retryCount e
    /\ World.outbox w' = World.outbox w
    /\ World.redis w' = World.redis w
    /\ World.queue w' = EmailQueue.enqueue j (World.queue w)
    /\ Job.id j = EmailQueue.generateJobId (EmailJobData.emailId data)
                    (EmailJobData.attemptNumber data + 1)
    /\ EmailJobData.attemptNumber (Job.data j) = EmailJobData.attemptNumber data + 1
    /\ Job.delay j = getNextHourStart (Env.tz env) (Env.now env) - Env.now env
    /\ 0 < Job.delay j.
Proof.
  intros He Hup Hq Hquota.
  destruct (WorkerFacts.processEmailJob_rate_limited cfg env jobId data w e
              He Hup Hq Hquota)
    as (w' & Hrun & Hem & Hqueue & Hob & Hrd & _).
  eexists _, w', _, _. split; [exact Hrun|]. split; [done|].
  split; [by rewrite Hem, lookup_insert_eq|].
  do 4 (split; [done|]). split; [exact Hqueue|].
  split; [done|]. split; [done|].
  cbn [Job.delay EmailQueue.make_job].
  pose proof (floor_bounds (Env.tz env) (Env.now env)) as Hb.
  unfold getNextHourStart, getCurrentHourStart, setHoursPlus1 in *.
  unfold MS_PER_HOUR in *. lia.
Qed.

Lemma refused_delivery_requeues_witness :
  exists r w' e' j,
    Worker.processEmailJob Sample.cfg Sample.env_ok "email-m1-attempt-1"
      Sample.data1 Sample.world1_full = (Ok r, w')
    /\ EmailJobResult.success r = false
    /\ World.emails w' !! "m1" = Some e'
    /\ Email.status e' = RATE_LIMITED
    /\ Email.retryCount e' = 0
    /\ World.outbox w' = []
    /\ World.redis w' = World.redis Sample.world1_full
    /\ World.queue w' = EmailQueue.enqueue j []
    /\ Job.id j = "email-m1-attempt-2"%string
    /\ EmailJobData.attemptNumber (Job.data j) = 2
    /\ Job.delay j = 60000
    /\ 0 < Job.delay j.
Proof.
  apply (refused_delivery_requeues Sample.cfg Sample.env_ok "email-m1-attempt-1"
           Sample.data1 Sample.world1_full Sample.email1);
    [reflexivity | reflexivity | reflexivity | vm_compute; discriminate].
Defined.

(** X14. A delivery that the limiter allows and the transport accepts
    (Redis answering, the row's batch in place) resolves with
    [success: true]; exactly one envelope, to the job's recipient, is
    handed over; the row is [SENT] with [sentAt] the time of the
    delivery and its retry count as before; the global count of the
    hour rises by one, and the sender's count too when the job names a
    sender; the batch counts one more sent message; no job is added. *)
Theorem accepted_delivery_is_recorded cfg env jobId data w e :
  World.emails w !! EmailJobData.emailId data = Some e ->
  Env.redisUp env = true ->
  0 < RateLimit.quota cfg (EmailJobData.senderId data)
        (Counts.globalCount env w)
        (Counts.senderCount env (EmailJobData.senderId data) w) ->
  Legal.batch_linked (EmailJobData.emailId data) w ->
  (forall options smtp,
     SendEmailResult.success (Env.transport env options smtp) = true) ->
  exists r w' e' o,
    Worker.processEmailJob cfg env jobId data w = (Ok r, w')
    /\ EmailJobResult.success r = true
    /\ World.emails w' !! EmailJobData.emailId data = Some e'
    /\ Email.status e' = SENT
    /\ Email.sentAt e' = Some (Env.now env)
    /\ Email.retryCount e' = Email.retryCount e
    /\ World.outbox w' = World.outbox w ++ [o]
    /\ SendEmailOptions.to o = EmailJobData.recipientEmail data
    /\ Counts.globalCount env w' = Counts.globalCount env w + 1
    /\ (truthy (EmailJobData.senderId data) = true ->
        Counts.senderCount env (EmailJobData.senderId data) w'
        = Counts.senderCount env (EmailJobData.senderId data) w + 1)
    /\ (forall bid, Email.batchId e = Some bid -> truthy (Some bid) = true ->
        EmailBatch.sentEmails <$> World.emailBatches w' !! bid
        = (fun b => EmailBatch.sentEmails b + 1) <$> World.emailBatches w !! bid)
    /\ World.queue w' = World.queue w.
Proof.
  intros He Hup Hquota Hb Hsend.
  destruct (WorkerFacts.processEmailJob_sent cfg env jobId data w e
              He Hup Hquota Hb Hsend)
    as (o & smtp & w' & Hrun & Hem & Hob & Hto & Hrd & _ & Hbt & Hqu).
  cbv zeta in Hrun, Hem.
  destruct (CounterFacts.incrementRateLimit_counts env
              (EmailJobData.senderId data) w Hup)
    as (w1 & Hinc & Hgc & Hsc & _).
  rewrite Hinc in Hrd. cbn [snd] in Hrd.
  destruct (FrameFacts.counts_redis env (EmailJobData.senderId data) w' w1 Hup Hrd)
    as [Hg Hs].
  eexists _, w', _, o. split; [exact Hrun|]. split; [done|].
  split; [by rewrite Hem, lookup_insert_eq|].
  do 3 (split; [done|]). split; [exact Hob|]. split; [exact Hto|].
  split; [by rewrite Hg, Hgc|]. split.
  { intros Ht. rewrite Hs, Hsc, Ht. done. }
  split; [|exact Hqu].
  intros bid Hbid Ht. rewrite Hbt, Hbid, Ht. cbn [default from_option id].
  rewrite lookup_alter_eq. by destruct (World.emailBatches w !! bid).
Qed.

Lemma accepted_delivery_is_recorded_witness :
  exists r w' e' o,
    Worker.processEmailJob Sample.cfg Sample.env_ok "email-m1-attempt-1"
      Sample.data1 Sample.world1 = (Ok r, w')
    /\ EmailJobResult.success r = true
    /\ World.emails w' !! "m1" = Some e'
    /\ Email.status e' = SENT
    /\ Email.sentAt e' = Some Sample.t_1059
    /\ Email.retryCount e' = 0
    /\ World.outbox w' = [] ++ [o]
    /\ SendEmailOptions.to o = "a@example.com"%string
    /\ Counts.globalCount Sample.env_ok w'
       = Counts.globalCount Sample.env_ok Sample.world1 + 1
    /\ (truthy (Some "s1"%string) = true ->
        Counts.senderCount Sample.env_ok (Some "s1"%string) w'
        = Counts.senderCount Sample.env_ok (Some "s1"%string) Sample.world1 + 1)
    /\ (forall bid, Some "b1"%string = Some bid -> truthy (Some bid) = true ->
        EmailBatch.sentEmails <$> World.emailBatches w' !! bid
        = (fun b => EmailBatch.sentEmails b + 1)
            <$> World.emailBatches Sample.world1 !! bid)
    /\ World.queue w' = [].
Proof.
  apply (accepted_delivery_is_recorded Sample.cfg Sample.env_ok
           "email-m1-attempt-1" Sample.data1 Sample.world1 Sample.email1).
  - reflexivity.
  - reflexivity.
  - vm_compute. reflexivity.
  - intros e He _. injection He as <-. by eexists.
  - reflexivity.
Defined.

(** X15. A delivery whose send fails when no retry is left (Redis
    answering, quota left, the row's batch in place) still resolves,
    with [success: false]; the row is [FAILED] with the transport's
    error and one more retry counted; the batch counts one more failed
    message; nothing is counted against the quota and no job is
    added. *)
Theorem last_failed_delivery_marks_failed cfg env jobId data w e :
  World.emails w !! EmailJobData.emailId data = Some e ->
  Env.redisUp env = true ->
  0 < RateLimit.quota cfg (EmailJobData.senderId data)
        (Counts.globalCount env w)
        (Counts.senderCount env (EmailJobData.senderId data) w) ->
  Legal.batch_linked (EmailJobData.emailId data) w ->
  (forall options smtp,
     SendEmailResult.success (Env.transport env options smtp) = false) ->
  or_number (Some (Email.maxRetries e)) (Config.maxRetries cfg)
    <= Email.retryCount e + 1 ->
  exists r w' e' o smtp,
    Worker.processEmailJob cfg env jobId data w = (Ok r, w')
    /\ EmailJobResult.success r = false
    /\ World.emails w' !! EmailJobData.emailId data = Some e'
    /\ Email.status e' = FAILED
    /\ Email.retryCount e' = Email.retryCount e + 1
    /\ Email.errorMessage e'
       = Some (or_string (SendEmailResult.error (Env.transport env o smtp))
                 "Unknown email sending error")
    /\ EmailJobResult.error r = Email.errorMessage e'
    /\ World.outbox w' = World.outbox w ++ [o]
    /\ World.redis w' = World.redis w
    /\ World.rateLimitCounters w' = World.rateLimitCounters w
    /\ (forall bid, Email.batchId e = Some bid -> truthy (Some bid) = true ->
        EmailBatch.failedEmails <$> World.emailBatches w' !! bid
        = (fun b => EmailBatch.failedEmails b + 1) <$> World.emailBatches w !! bid)
    /\ World.queue w' = World.queue w.
Proof.
  intros He Hup Hquota Hb Hfail Hretry.
  destruct (WorkerFacts.processEmailJob_exhausted cfg env jobId data w e
              He Hup Hquota Hb Hfail Hretry)
    as (o & smtp & w' & Hrun & Hem & Hob & Hrd & Hrc & Hbt & Hqu).
  cbv zeta in Hrun, Hem.
  eexists _, w', _, o, smtp. split; [exact Hrun|]. split; [done|].
  split; [by rewrite Hem, lookup_insert_eq|].
  do 4 (split; [done|]). split; [exact Hob|]. split; [exact Hrd|].
  split; [exact Hrc|]. split; [|exact Hqu].
  intros bid Hbid Ht. rewrite Hbt, Hbid, Ht. cbn [default from_option id].
  rewrite lookup_alter_eq. by destruct (World.emailBatches w !! bid).
Qed.

Lemma last_failed_delivery_marks_failed_witness :
  exists r w' e' o smtp,
    Worker.processEmailJob Sample.cfg Sample.env_fail "email-m1-attempt-1"
      Sample.data1 Sample.world1_last_try = (Ok r, w')
    /\ EmailJobResult.success r = false
    /\ World.emails w' !! "m1" = Some e'
    /\ Email.status e' = FAILED
    /\ Email.retryCount e' = 2 + 1
    /\ Email.errorMessage e'
       = Some (or_string (SendEmailResult.error
                            (Env.transport Sample.env_fail o smtp))
                 "Unknown email sending error")
    /\ EmailJobResult.error r = Email.errorMessage e'
    /\ World.outbox w' = [] ++ [o]
    /\ World.redis w' = ∅
    /\ World.rateLimitCounters w' = ∅
    /\ (forall bid, Some "b1"%string = Some bid -> truthy (Some bid) = true ->
        EmailBatch.failedEmails <$> World.emailBatches w' !! bid
        = (fun b => EmailBatch.failedEmails b + 1)
            <$> World.emailBatches Sample.world1_last_try !! bid)
    /\ World.queue w' = [].
Proof.
  apply (last_failed_delivery_marks_failed Sample.cfg Sample.env_fail
           "email-m1-attempt-1" Sample.data1 Sample.world1_last_try
           (Email.mk "u1" (Some "s1") "a@example.com" "Hello" "<p>Hi</p>"
              Sample.t_1059 None SCHEDULED (Some "read ECONNRESET") 2 3 None
              None None (Some "b1") (Some 0))).
  - reflexivity.
  - reflexivity.
  - vm_compute. reflexivity.
  - intros e He _. injection He as <-. by eexists.
  - reflexivity.
  - vm_compute. discriminate.
Defined.

(** X16. Sender resolution writes nothing and never rejects.  The id it
    yields is that of an active sender of the user: the requested one
    when the request names a sender, else a default sender if the user
    has an active default one.  It answers 400 exactly when the user
    has no such sender. *)
Theorem resolveSender_sound userId senderId w :
  let owned s := Sender.userId s = userId /\ Sender.isActive s = true in
  exists r,
    Controller.resolveSender userId senderId w = (Ok r, w)
    /\ match r with
       | inl sid =>
           exists s, s ∈ World.senders w /\ Sender.id s = sid /\ owned s
             /\ (truthy senderId = true -> senderId = Some sid)
             /\ (truthy senderId = false ->
                 (exists d, d ∈ World.senders w /\ owned d
                            /\ Sender.isDefault d = true) ->
                 Sender.isDefault s = true)
       | inr reply =>
           Controller.Response.statusCode reply = 400
           /\ Controller.Response.success reply = false
           /\ forall s, s ∈ World.senders w -> owned s ->
                truthy senderId = true /\ senderId <> Some (Sender.id s)
       end.
Proof.
  cbv zeta. unfold Controller.resolveSender, Prisma.sender_findFirst, bind, ret.
  destruct (truthy senderId) eqn:Ht; cbn [negb].
  - destruct (find _ _) as [s|] eqn:Hf.
    + apply find_some in Hf as [Hin Hs].
      apply andb_true_iff in Hs as [Hs Hact].
      apply andb_true_iff in Hs as [Hid Hu].
      apply String.eqb_eq in Hid, Hu.
      eexists. split; [reflexivity|]. exists s.
      split; [by apply list_elem_of_In|]. split; [done|]. split; [done|].
      split; [|done]. intros _. destruct senderId; [|done]. done.
    + eexists. split; [reflexivity|]. split; [done|]. split; [done|].
      intros s Hin [Hu Hact]. split; [done|]. intros Hsid.
      apply list_elem_of_In in Hin.
      pose proof (find_none _ _ Hf s Hin) as Hno. cbn in Hno.
      rewrite Hsid in Hno. cbn in Hno. rewrite Hact in Hno.
      rewrite String.eqb_refl in Hno.
      apply String.eqb_eq in Hu. rewrite Hu in Hno. discriminate.
  - destruct (find _ (World.senders w)) as [s|] eqn:Hf.
    + apply find_some in Hf as [Hin Hs].
      apply andb_true_iff in Hs as [Hs Hdef].
      apply andb_true_iff in Hs as [Hu Hact].
      apply String.eqb_eq in Hu.
      eexists. split; [reflexivity|]. exists s.
      split; [by apply list_elem_of_In|]. done.
    + match goal with
      | |- context [find ?f ?l] => destruct (find f l) as [s|] eqn:Hf2
      end.
      * apply find_some in Hf2 as [Hin Hs].
        apply andb_true_iff in Hs as [Hu Hact].
        apply String.eqb_eq in Hu.
        eexists. split; [reflexivity|]. exists s.
        split; [by apply list_elem_of_In|]. split; [done|]. split; [done|].
        split; [done|]. intros _ (d & Hd & [Hdu Hda] & Hdd).
        apply list_elem_of_In in Hd.
        pose proof (find_none _ _ Hf d Hd) as Hno. cbn in Hno.
        rewrite Hda, Hdd in Hno. apply String.eqb_eq in Hdu.
        rewrite Hdu in Hno. discriminate.
      * eexists. split; [reflexivity|]. split; [done|]. split; [done|].
        intros s Hin [Hu Hact]. exfalso.
        apply list_elem_of_In in Hin.
        pose proof (find_none _ _ Hf2 s Hin) as Hno. cbn in Hno.
        rewrite Hact in Hno. apply String.eqb_eq in Hu.
        rewrite Hu in Hno. discriminate.
Qed.

(** X17. A user's requests reach only that user's rows.  [cancelEmail]
    always resolves; it answers 200 exactly when the row exists and is
    the caller's, and then the row is gone; otherwise it answers 404 and
    the store is as before.  Every row of another user, and every row
    under another id, stays in place unchanged, and the queue keeps its
    jobs.  [getEmailById] yields a row only if it is the caller's. *)
Theorem requests_reach_only_own_rows userId id w :
  exists r w',
    Controller.cancelEmail userId id w = (Ok r, w')
    /\ (Controller.Response.statusCode r = 200
        <-> exists e, World.emails w !! id = Some e /\ Email.userId e = userId)
    /\ (Controller.Response.statusCode r = 200 -> World.emails w' !! id = None)
    /\ (Controller.Response.statusCode r <> 200 ->
        Controller.Response.statusCode r = 404 /\ w' = w)
    /\ (forall id' e', World.emails w !! id' = Some e' ->
          id' <> id \/ Email.userId e' <> userId ->
          World.emails w' !! id' = Some e')
    /\ World.queue w' = World.queue w
    /\ Queries.getEmailById userId id w
       = (Ok (match World.emails w !! id with
              | Some e => if decide (Email.userId e = userId) then Some e else None
              | None => None
              end), w).
Proof.
  unfold Controller.cancelEmail, Queries.getEmailById, tryCatch, bind, ret,
    Prisma.email_findUnique, Prisma.email_delete, Controller.reply_error.
  destruct w as [em bt sd rc rd q n ob sl]; cbn.
  destruct (em !! id) as [e|] eqn:E; cbn.
  2: { eexists _, _. split; [reflexivity|]. cbn.
       split; [split; [done|by intros (? & ? & _)]|].
       split; [done|]. split; [done|]. split; [by intros|]. done. }
  destruct (String.eqb_spec (Email.userId e) userId) as [Hu|Hu]; cbn.
  - rewrite E. cbn. eexists _, _. split; [reflexivity|]. cbn.
    split; [split; [by exists e|done]|].
    split; [intros _; apply lookup_delete_eq|].
    split; [done|]. split.
    + intros id' e' He' [Hid|Hne].
      * by rewrite lookup_delete_ne.
      * destruct (decide (id' = id)) as [->|Hid]; [congruence|].
        by rewrite lookup_delete_ne.
    + split; [done|]. by rewrite decide_True.
  - eexists _, _. split; [reflexivity|]. cbn.
    split; [split; [done|]|].
    { intros (e0 & [= <-] & Hu'). done. }
    split; [done|]. split; [done|]. split; [by intros|].
    split; [done|]. by rewrite decide_False.
Qed.

Module QueriesFacts.
Import Queries.

(** Every row is in exactly one of the five statuses. *)
Lemma count_by_status (u : Email.t -> bool) (l : list (string * Email.t)) :
  let n s := Z.of_nat (length (List.filter
               (fun kv : string * Email.t =>
                  u kv.2 && bool_decide (Email.status kv.2 = s)) l)) in
  n SCHEDULED + n PROCESSING + n SENT + n FAILED + n RATE_LIMITED
  = Z.of_nat (length (List.filter (fun kv : string * Email.t => u kv.2) l)).
Proof.
  cbv zeta. induction l as [|[id e] l IH]; [done|].
  cbn [List.filter snd]. destruct (u e); cbn [andb]; [|exact IH].
  destruct (Email.status e) eqn:Hs;
    repeat (case_bool_decide; try congruence); cbn [length]; lia.
Qed.

Lemma page_length {A} (l : list A) (skip take : Z) :
  0 <= skip -> 0 <= take ->
  Z.of_nat (length (List.firstn (Z.to_nat take) (List.skipn (Z.to_nat skip) l)))
  = Z.min take (Z.max 0 (Z.of_nat (length l) - skip)).
Proof. intros Hs Ht. rewrite length_firstn, length_skipn. lia. Qed.

Lemma page_elem {A} (l : list A) (skip take : nat) x :
  x ∈ List.firstn take (List.skipn skip l) -> x ∈ l.
Proof.
  intros Hx.
  eapply elem_of_sublist; [|apply (sublist_drop l skip)].
  eapply elem_of_sublist; [exact Hx|apply sublist_take].
Qed.

End QueriesFacts.

(** X18. [getEmailStats] resolves and writes nothing; its five counts
    are non-negative and its [total] is the number of rows of the user,
    as [count({ where: { userId } })] gives it: every row of the user is
    counted under exactly one status. *)
Theorem stats_total_counts_user_rows userId w :
  exists st,
    Queries.getEmailStats userId w = (Ok st, w)
    /\ Queries.email_count (fun e => String.eqb (Email.userId e) userId) w
       = (Ok (Queries.EmailStats.total st), w)
    /\ 0 <= Queries.EmailStats.scheduled st
    /\ 0 <= Queries.EmailStats.processing st
    /\ 0 <= Queries.EmailStats.sent st
    /\ 0 <= Queries.EmailStats.failed st
    /\ 0 <= Queries.EmailStats.rateLimited st.
Proof.
  unfold Queries.getEmailStats, Queries.email_count, bind, ret.
  eexists. split; [reflexivity|]. cbn [Queries.EmailStats.total
    Queries.EmailStats.scheduled Queries.EmailStats.processing
    Queries.EmailStats.sent Queries.EmailStats.failed
    Queries.EmailStats.rateLimited].
  split; [|lia]. f_equal. f_equal.
  symmetry. apply (QueriesFacts.count_by_status
    (fun e => String.eqb (Email.userId e) userId)).
Qed.

(** X19. The list handlers ([getScheduledEmails], [getSentEmails]), for
    a query with page >= 1 and limit >= 1 and a database order that
    only reorders the matching rows: the reply is 200; [total] is the
    number of matching rows; the page holds min(limit, max(0, total -
    (page - 1) * limit)) rows, each a row of the store, of the caller
    and in one of the listed statuses; [hasMore] holds exactly when
    rows remain after this page, which is exactly when page <
    totalPages. *)
Theorem list_page_contract statuses orderBy userId page limit w :
  1 <= page -> 1 <= limit ->
  (forall l, orderBy l ≡ₚ l) ->
  exists rows p,
    Queries.listEmails statuses orderBy userId page limit w
    = (Ok (Queries.ListReply.mk 200 true rows (Some p)), w)
    /\ Queries.email_count
         (fun e => String.eqb (Email.userId e) userId
                   && Queries.has_status statuses e) w
       = (Ok (Queries.PaginationInfo.total p), w)
    /\ Z.of_nat (length rows)
       = Z.min limit
           (Z.max 0 (Queries.PaginationInfo.total p - (page - 1) * limit))
    /\ Forall (fun kv : string * Email.t =>
                 World.emails w !! kv.1 = Some kv.2
                 /\ Email.userId kv.2 = userId
                 /\ Email.status kv.2 ∈ statuses) rows
    /\ (Queries.PaginationInfo.hasMore p = true
        <-> (page - 1) * limit + Z.of_nat (length rows)
            < Queries.PaginationInfo.total p)
    /\ (Queries.PaginationInfo.hasMore p = true
        <-> page < Queries.PaginationInfo.totalPages p).
Proof.
  intros Hpage Hlimit Hperm.
  unfold Queries.listEmails, Queries.email_findMany, Queries.email_count,
    Queries.pagination, tryCatch, bind, ret.
  eexists _, _. split; [reflexivity|].
  cbn [Queries.PaginationInfo.total Queries.PaginationInfo.hasMore
       Queries.PaginationInfo.totalPages].
  set (hit := List.filter _ (map_to_list (World.emails w))).
  set (total := Z.of_nat (length hit)).
  assert (Hk : 0 <= (page - 1) * limit) by nia.
  assert (Hlen : Z.of_nat (length (List.firstn (Z.to_nat limit)
                   (List.skipn (Z.to_nat ((page - 1) * limit)) (orderBy hit))))
                 = Z.min limit (Z.max 0 (total - (page - 1) * limit))).
  { rewrite QueriesFacts.page_length by lia.
    by rewrite (Permutation_length (Hperm hit)). }
  split; [done|]. split; [exact Hlen|]. split.
  { apply Forall_forall. intros [id e] Hin.
    apply QueriesFacts.page_elem in Hin. rewrite (Hperm hit) in Hin.
    unfold hit in Hin. apply list_elem_of_In, filter_In in Hin as [Hin Hw].
    apply list_elem_of_In, elem_of_map_to_list in Hin.
    cbn in Hw. apply andb_true_iff in Hw as [Hu Hs].
    apply String.eqb_eq in Hu. apply bool_decide_eq_true in Hs. done. }
  rewrite Hlen, Z.ltb_lt.
  pose proof (UpkeepFacts.ceil_div_spec total limit ltac:(lia)) as Hc.
  assert (Hmul : page * limit = (page - 1) * limit + limit) by lia.
  split; [lia|]. split; intros H; nia.
Qed.

Lemma list_page_contract_witness :
  exists rows p,
    Queries.getScheduledEmails (fun l => l) "u1" 1 20 Sample.world1
    = (Ok (Queries.ListReply.mk 200 true rows (Some p)), Sample.world1)
    /\ Queries.email_count
         (fun e => String.eqb (Email.userId e) "u1"
                   && Queries.has_status [SCHEDULED; PROCESSING; RATE_LIMITED] e)
         Sample.world1
       = (Ok (Queries.PaginationInfo.total p), Sample.world1)
    /\ Z.of_nat (length rows)
       = Z.min 20 (Z.max 0 (Queries.PaginationInfo.total p - (1 - 1) * 20))
    /\ Forall (fun kv : string * Email.t =>
                 World.emails Sample.world1 !! kv.1 = Some kv.2
                 /\ Email.userId kv.2 = "u1"%string
                 /\ Email.status kv.2 ∈ [SCHEDULED; PROCESSING; RATE_LIMITED]) rows
    /\ (Queries.PaginationInfo.hasMore p = true
        <-> (1 - 1) * 20 + Z.of_nat (length rows)
            < Queries.PaginationInfo.total p)
    /\ (Queries.PaginationInfo.hasMore p = true
        <-> 1 < Queries.PaginationInfo.totalPages p).
Proof.
  apply (list_page_contract [SCHEDULED; PROCESSING; RATE_LIMITED]
           (fun l => l) "u1" 1 20 Sample.world1); [lia | lia | reflexivity].
Defined.

Module LinkFacts.
Import Frame.

Lemma linked_refl id e : linked id e e.
Proof. split; [apply FrameFacts.same_content_refl|]. split; [done|by left]. Qed.

Lemma linked_trans id a b c : linked id a b -> linked id b c -> linked id a c.
Proof.
  intros (Hab & Hs1 & Hj1) (Hbc & Hs2 & Hj2).
  split; [by eapply FrameFacts.same_content_trans|]. split; [congruence|].
  destruct Hj2 as [Hj2|Hj2]; [rewrite Hj2; exact Hj1|by right].
Qed.

Lemma link_rows (jobIds : list string) (l : list (nat * (string * Email.t))) :
  (forall x, x ∈ l -> jobIds !! x.1 = Some (EmailQueue.generateJobId x.2.1 1)) ->
  forall w,
    (forall x, x ∈ l -> is_Some (World.emails w !! x.2.1)) ->
    exists rs w',
      mapM (fun '(index, (id, _)) =>
              Prisma.email_update id
                (Patch.mk None (jobIds !! index) None None None None None))
        l w = (Ok rs, w')
      /\ World.queue w' = World.queue w
      /\ (forall id e0, World.emails w !! id = Some e0 ->
            exists e', World.emails w' !! id = Some e' /\ linked id e0 e')
      /\ (forall x, x ∈ l ->
            exists e', World.emails w' !! x.2.1 = Some e'
                       /\ Email.jobId e'
                          = Some (EmailQueue.generateJobId x.2.1 1)).
Proof.
  intros Hids. induction l as [|[i [id e]] l IH]; intros w Hex.
  - exists [], w. split; [done|]. split; [done|]. split.
    + intros id e0 H. exists e0. split; [done|apply linked_refl].
    + intros x Hx. by apply elem_of_nil in Hx.
  - destruct (Hex (i, (id, e))) as [e0 He0]; [by left|]. cbn in He0.
    pose proof (Hids (i, (id, e)) ltac:(by left)) as Hi. cbn in Hi.
    set (e1 := Patch.apply
                 (Patch.mk None (Some (EmailQueue.generateJobId id 1)) None None
                    None None None) e0).
    set (w1 := World.set_statusLog (fun l => l ++ [])
                 (World.set_emails (insert id e1) w)).
    assert (Hstep : Prisma.email_update id
                      (Patch.mk None (jobIds !! i) None None None None None) w
                    = (Ok e1, w1)).
    { unfold Prisma.email_update. rewrite He0, Hi. done. }
    assert (Hem1 : World.emails w1 = <[id := e1]> (World.emails w)).
    { unfold w1. by destruct w. }
    assert (Hq1 : World.queue w1 = World.queue w).
    { unfold w1. by destruct w. }
    destruct (IH (fun x Hx => Hids x (list_elem_of_further _ _ _ Hx)) w1)
      as (rs & w' & Hrun & Hq & Hall & Hl).
    { intros x Hx. rewrite Hem1.
      destruct (decide (x.2.1 = id)) as [->|Hne].
      - rewrite lookup_insert_eq. by eexists.
      - rewrite lookup_insert_ne by done. apply Hex. by right. }
    exists (e1 :: rs), w'. split.
    { cbn [mapM]. unfold bind at 1. rewrite Hstep. unfold bind at 1.
      rewrite Hrun. done. }
    split; [congruence|].
    assert (Hlk1 : linked id e0 e1).
    { split; [apply WorkerFacts.same_content_apply|]. split; [done|by right]. }
    split.
    + intros id' e' He'.
      destruct (decide (id' = id)) as [->|Hne].
      * destruct (Hall id e1) as (e2 & He2 & Hl2).
        { by rewrite Hem1, lookup_insert_eq. }
        exists e2. split; [done|]. rewrite He0 in He'. injection He' as <-.
        by eapply linked_trans.
      * apply Hall. by rewrite Hem1, lookup_insert_ne.
    + intros x Hx. apply elem_of_cons in Hx as [->|Hx]; [|by apply Hl].
      cbn. destruct (Hall id e1) as (e2 & He2 & (_ & _ & Hj)).
      { by rewrite Hem1, lookup_insert_eq. }
      exists e2. split; [done|]. destruct Hj as [Hj|Hj]; [|done].
      rewrite Hj. done.
Qed.

Lemma enqueue_all_elem js : forall q j,
  j ∈ js ->
  Job.id j ∈ Job.id <$> fold_left (fun q j => EmailQueue.enqueue j q) js q.
Proof.
  induction js as [|j0 js IH]; intros q j Hj; [by apply elem_of_nil in Hj|].
  cbn [fold_left]. apply elem_of_cons in Hj as [->|Hj]; [|by apply IH].
  clear IH. generalize (QueueFacts.enqueue_elem j0 q).
  generalize (EmailQueue.enqueue j0 q). clear q.
  induction js as [|j1 js IH]; intros q Hq; [done|].
  cbn [fold_left]. apply IH.
  apply list_elem_of_fmap in Hq as (x & Hx & Hin).
  apply list_elem_of_fmap. exists x. split; [done|].
  by apply QueueFacts.enqueue_keeps.
Qed.

Lemma mapM_length {A B} (f : A -> Async B) l : forall w rs w',
  mapM f l w = (Ok rs, w') -> length rs = length l.
Proof.
  induction l as [|a l IH]; intros w rs w'; cbn [mapM].
  - unfold ret. by intros [= <- <-].
  - unfold bind at 1. destruct (f a w) as [[b|e] w1]; [|done].
    unfold bind at 1. destruct (mapM f l w1) as [[bs|e] w2] eqn:Hm; [|done].
    unfold ret. intros [= <- <-]. cbn. f_equal. by eapply IH.
Qed.

End LinkFacts.

Module ScheduleFacts.
Import Frame.

Lemma lookup_map {A B} (f : A -> B) (l : list A) (i : nat) :
  List.map f l !! i = f <$> l !! i.
Proof.
  revert i. induction l as [|a l IH]; intros [|i]; cbn; [done..|apply IH].
Qed.

Section WithConfig.
Variable cfg : Config.t.
Variable env : Env.t.

(** With the queue reachable and the created rows in the store, the
    inner [try] of [scheduleEmails] resolves with the 201 reply. *)
Lemma enqueueAndLink_run userId sid bid ems times w :
  Env.queueError env = None ->
  (forall (i : nat) r, ems !! i = Some r -> World.emails w !! r.1 = Some r.2) ->
  exists w',
    Controller.enqueueAndLink cfg env userId sid bid ems times w
    = (Ok (Controller.Response.mk 201 true None
             (Some ("Successfully scheduled " +:+ pretty (length ems) +:+ " emails"))
             (Some (bid, Z.of_nat (length ems), ems))), w')
    /\ forall (i : nat) r, ems !! i = Some r ->
         EmailQueue.generateJobId r.1 1 ∈ Job.id <$> World.queue w'
         /\ exists e', World.emails w' !! r.1 = Some e'
                       /\ linked r.1 r.2 e'
                       /\ Email.jobId e' = Some (EmailQueue.generateJobId r.1 1).
Proof.
  intros Hq Hrows.
  unfold Controller.enqueueAndLink.
  set (jobsData := imap _ ems).
  unfold bind at 1.
  unfold EmailQueue.addEmailJobs, EmailQueue.queue_addBulk, tryCatch.
  rewrite Hq.
  set (jobs := List.map _ jobsData).
  set (w0 := World.set_queue _ w).
  assert (Hem0 : World.emails w0 = World.emails w).
  { unfold w0. by destruct w. }
  assert (Hqu0 : World.queue w0
                 = fold_left (fun q j => EmailQueue.enqueue j q) jobs (World.queue w)).
  { unfold w0. by destruct w. }
  assert (Hjob : forall (i : nat) r, ems !! i = Some r ->
            exists j, jobs !! i = Some j
                      /\ Job.id j = EmailQueue.generateJobId r.1 1).
  { intros i [id e] Hi. unfold jobs, jobsData.
    rewrite lookup_map, list_lookup_imap, Hi. cbn. by eexists. }
  clearbody w0 jobs.
  destruct (LinkFacts.link_rows (List.map Job.id jobs)
              (imap (fun i e => (i, e)) ems)) with (w := w0)
    as (rs & w' & Hrun & Hqu & Hall & Hl).
  { intros x Hx. apply elem_of_lookup_imap in Hx as (i & r & -> & Hi).
    destruct (Hjob i r Hi) as (j & Hj & Hid). cbn.
    rewrite lookup_map, Hj. cbn. by rewrite Hid. }
  { intros x Hx. apply elem_of_lookup_imap in Hx as (i & r & -> & Hi).
    cbn. rewrite Hem0, (Hrows i r Hi). by eexists. }
  exists w'. split.
  { unfold bind at 1. rewrite Hrun. done. }
  intros i r Hi. split.
  - rewrite Hqu, Hqu0.
    destruct (Hjob i r Hi) as (j & Hj & <-).
    apply LinkFacts.enqueue_all_elem. by eapply list_elem_of_lookup_2.
  - destruct (Hl (i, r)) as (e' & He' & Hjid).
    { apply elem_of_lookup_imap. by exists i, r. }
    cbn in He', Hjid. exists e'. split; [done|]. split; [|done].
    destruct (Hall r.1 r.2) as (e2 & He2 & Hlinked).
    { rewrite Hem0. by apply (Hrows i). }
    rewrite He' in He2. by injection He2 as <-.
Qed.

End WithConfig.
End ScheduleFacts.

(** X20. With the queue reachable, a resolved sender and the batch and
    its rows created, [scheduleEmails] answers 201 with the batch id,
    the number of recipients and the created rows; for every created
    row the queue holds the job of its first attempt, and the row is in
    the store, still [SCHEDULED] and of the batch, with that job's id
    written back and its content as created. *)
Theorem schedule_success_links_jobs
    cfg env userId req w sid bid ems w1 :
  Env.queueError env = None ->
  Controller.resolveSender userId (Controller.ScheduleRequest.senderId req) w
    = (Ok (inl sid), w) ->
  truthy (Some sid) = true ->
  Controller.createBatchAndEmails env userId req sid
    (Planner.calculateScheduledTimes (Env.tz env)
       (Z.of_nat (length (Controller.ScheduleRequest.recipients req)))
       (Controller.ScheduleRequest.startTime req)
       (Controller.ScheduleRequest.delayBetweenEmails req)
       (Controller.ScheduleRequest.hourlyLimit req) (Some sid)) w
    = (Ok (bid, ems), w1) ->
  exists reply w',
    Controller.scheduleEmails cfg env userId req w = (Ok reply, w')
    /\ Controller.Response.statusCode reply = 201
    /\ Controller.Response.success reply = true
    /\ Controller.Response.data reply
       = Some (bid, Z.of_nat (length (Controller.ScheduleRequest.recipients req)),
               ems)
    /\ Forall (fun r : string * Email.t =>
                 EmailQueue.generateJobId r.1 1 ∈ Job.id <$> World.queue w'
                 /\ exists e,
                      World.emails w' !! r.1 = Some e
                      /\ Email.status e = SCHEDULED
                      /\ Email.batchId e = Some bid
                      /\ Email.jobId e = Some (EmailQueue.generateJobId r.1 1)
                      /\ Frame.same_content r.2 e) ems.
Proof.
  intros Hq Hres Hsid Hcreate.
  pose proof (ControllerFacts.createBatchAndEmails_rows _ _ _ _ _ _ _ _ _ Hcreate)
    as Hrows.
  assert (Hlen : length ems = length (Controller.ScheduleRequest.recipients req)).
  { revert Hcreate. unfold Controller.createBatchAndEmails. unfold bind at 1.
    destruct (Prisma.emailBatch_create _ _ w) as [[[b ?]|x] w0]; [|done].
    unfold bind at 1.
    destruct (mapM _ _ w0) as [[rs|x] w2] eqn:Hm; [|done].
    unfold ret. intros [= <- <- <-].
    apply LinkFacts.mapM_length in Hm. by rewrite Hm, length_imap. }
  destruct (ScheduleFacts.enqueueAndLink_run cfg env userId sid bid ems
              (Planner.calculateScheduledTimes (Env.tz env)
                 (Z.of_nat (length (Controller.ScheduleRequest.recipients req)))
                 (Controller.ScheduleRequest.startTime req)
                 (Controller.ScheduleRequest.delayBetweenEmails req)
                 (Controller.ScheduleRequest.hourlyLimit req) (Some sid))
              w1 Hq)
    as (w' & Hrun & Hall).
  { intros i r Hi. by destruct (Forall_lookup_1 _ _ _ _ Hrows Hi) as [? _]. }
  unfold Controller.scheduleEmails. unfold tryCatch at 1. unfold bind at 1.
  rewrite Hres. cbn beta iota. rewrite Hsid. cbn [negb].
  unfold bind at 1. unfold RateLimit.calculateScheduledTimes, ret at 1.
  unfold bind at 1. rewrite Hcreate. cbn beta iota.
  unfold tryCatch at 1. rewrite Hrun.
  eexists _, w'. split; [reflexivity|].
  cbn [Controller.Response.statusCode Controller.Response.success
       Controller.Response.data].
  split; [done|]. split; [done|]. split; [by rewrite Hlen|].
  apply Forall_lookup_2. intros i r Hi.
  destruct (Hall i r Hi) as [Hjob (e' & He' & (Hsame & Hst & _) & Hjid)].
  destruct (Forall_lookup_1 _ _ _ _ Hrows Hi) as (_ & Hb & Hs).
  split; [done|]. exists e'. split; [done|]. split; [congruence|].
  split; [|done]. destruct Hsame as (_&_&_&_&_&_&_&Hbid&_). congruence.
Qed.

Lemma schedule_success_links_jobs_witness :
  exists reply w',
    Controller.scheduleEmails Sample.cfg Sample.env_ok "u1" Sample.request2
      Sample.world0 = (Ok reply, w')
    /\ Controller.Response.statusCode reply = 201
    /\ Job.id <$> World.queue w'
       = ["email-uuid-1-attempt-1"%string; "email-uuid-2-attempt-1"%string].
Proof.
  edestruct (schedule_success_links_jobs Sample.cfg Sample.env_ok "u1"
               Sample.request2 Sample.world0 "s1" "uuid-0")
    as (reply & w' & Hrun & Hcode & _).
  - reflexivity.
  - reflexivity.
  - reflexivity.
  - vm_compute. reflexivity.
  - exists reply, w'. split; [exact Hrun|]. split; [exact Hcode|].
    assert (Hw : w' = (Controller.scheduleEmails Sample.cfg Sample.env_ok "u1"
                         Sample.request2 Sample.world0).2) by by rewrite Hrun.
    rewrite Hw. by vm_compute.
Defined.

Module ReplyFacts.

Lemma resolveSender_run userId senderId w :
  exists r,
    Controller.resolveSender userId senderId w = (Ok r, w)
    /\ forall reply, r = inr reply ->
         Controller.Response.statusCode reply = 400
         /\ Controller.Response.success reply = false
         /\ is_Some (Controller.Response.error reply).
Proof.
  unfold Controller.resolveSender, Prisma.sender_findFirst, bind, ret.
  destruct (negb (truthy senderId)).
  - destruct (find _ _); [by eexists; split; [reflexivity|]|].
    destruct (find _ _); eexists; (split; [reflexivity|]); [done|].
    intros reply [= <-]. cbn. eauto.
  - destruct (find _ _); eexists; (split; [reflexivity|]); [done|].
    intros reply [= <-]. cbn. eauto.
Qed.

Lemma enqueueAndLink_ok cfg env userId sid bid ems times w r w' :
  Controller.enqueueAndLink cfg env userId sid bid ems times w = (Ok r, w') ->
  Controller.Response.statusCode r = 201
  /\ Controller.Response.success r = true.
Proof.
  unfold Controller.enqueueAndLink. unfold bind at 1.
  destruct (EmailQueue.addEmailJobs _ _ _ w) as [[ids|e] w0]; [|done].
  unfold bind at 1. destruct (mapM _ _ w0) as [[rs|e] w2]; [|done].
  unfold ret. by intros [= <- <-].
Qed.

Lemma markBatchFailed_throws bid e w :
  exists w', Controller.markBatchFailed bid e w = (Throw e, w').
Proof.
  unfold Controller.markBatchFailed, bind, throw, Prisma.email_updateMany_batch.
  by eexists.
Qed.

Lemma scheduleEmails_catch_reply e w :
  exists reply,
    Controller.scheduleEmails_catch e w = (Ok reply, w)
    /\ Controller.Response.statusCode reply = 500
    /\ Controller.Response.success reply = false
    /\ is_Some (Controller.Response.error reply).
Proof.
  unfold Controller.scheduleEmails_catch, ret, Controller.reply_error.
  eexists. split; [reflexivity|]. cbn. eauto.
Qed.

End ReplyFacts.

(** X21. [scheduleEmails] never rejects: whenever the call settles, it
    has resolved with a reply, the outer [catch] turning every rejection
    into one.  The reply is 201, 400 or 500; [success] is true exactly on
    201; every other reply carries an error text; and a 400 reply (no
    usable sender) leaves the store unchanged. *)
Theorem scheduleEmails_replies_when_it_settles cfg env userId req w o w' :
  Controller.scheduleEmails cfg env userId req w = (o, w') ->
  exists reply,
    o = Ok reply
    /\ (Controller.Response.statusCode reply = 201
        \/ Controller.Response.statusCode reply = 400
        \/ Controller.Response.statusCode reply = 500)
    /\ (Controller.Response.success reply = true
        <-> Controller.Response.statusCode reply = 201)
    /\ (Controller.Response.statusCode reply <> 201 ->
        is_Some (Controller.Response.error reply))
    /\ (Controller.Response.statusCode reply = 400 -> w' = w).
Proof.
  intros Hsettled.
  cut (exists reply w'',
    Controller.scheduleEmails cfg env userId req w = (Ok reply, w'')
    /\ (Controller.Response.statusCode reply = 201
        \/ Controller.Response.statusCode reply = 400
        \/ Controller.Response.statusCode reply = 500)
    /\ (Controller.Response.success reply = true
        <-> Controller.Response.statusCode reply = 201)
    /\ (Controller.Response.statusCode reply <> 201 ->
        is_Some (Controller.Response.error reply))
    /\ (Controller.Response.statusCode reply = 400 -> w'' = w)).
  { intros (reply & w'' & Hrun & H). rewrite Hrun in Hsettled.
    injection Hsettled as <- <-. by exists reply. }
  clear Hsettled o w'.
  assert (H500 : forall e w0,
    exists reply,
      Controller.scheduleEmails_catch e w0 = (Ok reply, w0)
      /\ (Controller.Response.statusCode reply = 201
          \/ Controller.Response.statusCode reply = 400
          \/ Controller.Response.statusCode reply = 500)
      /\ (Controller.Response.success reply = true
          <-> Controller.Response.statusCode reply = 201)
      /\ (Controller.Response.statusCode reply <> 201 ->
          is_Some (Controller.Response.error reply))
      /\ (Controller.Response.statusCode reply = 400 -> w0 = w)).
  { intros e w0.
    destruct (ReplyFacts.scheduleEmails_catch_reply e w0)
      as (reply & Hrun & Hc & Hs & He).
    exists reply. split; [exact Hrun|]. rewrite Hc, Hs.
    split; [auto|]. split; [split; intros; discriminate|].
    split; [done|]. intros; discriminate. }
  unfold Controller.scheduleEmails. unfold tryCatch at 1. unfold bind at 1.
  destruct (ReplyFacts.resolveSender_run userId
              (Controller.ScheduleRequest.senderId req) w) as (r & Hres & Hr).
  rewrite Hres. destruct r as [sid|reply].
  2: { destruct (Hr reply eq_refl) as (Hc & Hs & He).
       unfold ret. exists reply, w. split; [reflexivity|]. rewrite Hc, Hs.
       split; [auto|]. split; [split; intros; discriminate|]. done. }
  destruct (negb (truthy (Some sid))).
  { unfold ret, Controller.reply_error. eexists _, w. split; [reflexivity|].
    cbn. split; [auto|]. split; [split; intros; discriminate|].
    split; [eauto|]. intros; discriminate. }
  unfold bind at 1. unfold RateLimit.calculateScheduledTimes, ret at 1.
  unfold bind at 1.
  destruct (Controller.createBatchAndEmails _ _ _ _ _ w) as [[[bid ems]|e] w1].
  2: { destruct (H500 e w1) as (reply & Hrun & H). rewrite Hrun. by exists reply, w1. }
  unfold tryCatch at 1.
  destruct (Controller.enqueueAndLink _ _ _ _ _ _ _ w1) as [[reply|e] w2] eqn:Hlink.
  - destruct (ReplyFacts.enqueueAndLink_ok _ _ _ _ _ _ _ _ _ _ Hlink) as [Hc Hs].
    exists reply, w2. split; [reflexivity|]. rewrite Hc, Hs.
    split; [auto|]. split; [done|]. split; [done|]. intros; discriminate.
  - destruct (ReplyFacts.markBatchFailed_throws bid e w2) as (w3 & Hm).
    rewrite Hm. destruct (H500 e w3) as (reply & Hrun & H). rewrite Hrun.
    by exists reply, w3.
Qed.

Lemma scheduleEmails_replies_when_it_settles_witness :
  exists reply,
    Ok (Controller.reply_error 500
          "Queue service unavailable. Please try again later.") = Ok reply
    /\ (Controller.Response.statusCode reply = 201
        \/ Controller.Response.statusCode reply = 400
        \/ Controller.Response.statusCode reply = 500)
    /\ (Controller.Response.success reply = true
        <-> Controller.Response.statusCode reply = 201)
    /\ (Controller.Response.statusCode reply <> 201 ->
        is_Some (Controller.Response.error reply))
    /\ (Controller.Response.statusCode reply = 400 ->
        (Controller.scheduleEmails Sample.cfg Sample.env_queue_down "u1"
           Sample.request2 Sample.world0).2 = Sample.world0).
Proof.
  apply (scheduleEmails_replies_when_it_settles Sample.cfg Sample.env_queue_down
           "u1" Sample.request2 Sample.world0).
  by vm_compute.
Defined.

(** X22. [getNextAvailableSlot] writes nothing; it yields now when the
    check leaves quota, and otherwise the instant [getNextHourStart]
    gives, which lies on a local hour boundary and is after now. *)
Theorem next_slot_is_now_or_next_hour cfg env senderId w :
  let remaining :=
    RateLimit.quota cfg senderId (Counts.globalCount env w)
      (Counts.senderCount env senderId w) in
  exists t,
    RateLimit.getNextAvailableSlot cfg env senderId w = (Ok t, w)
    /\ (0 < remaining -> t = Env.now env)
    /\ (remaining <= 0 ->
        t = getNextHourStart (Env.tz env) (Env.now env)
        /\ hour_aligned (Env.tz env) t
        /\ Env.now env < t).
Proof.
  cbv zeta. unfold RateLimit.getNextAvailableSlot, bind.
  rewrite RateLimitFacts.checkRateLimit_run.
  cbn [RateLimitCheck.allowed RateLimitCheck.nextAvailableSlot].
  pose proof (floor_bounds (Env.tz env) (Env.now env)) as Hb.
  destruct (Z.ltb_spec 0 (RateLimit.quota cfg senderId (Counts.globalCount env w)
                            (Counts.senderCount env senderId w))) as [Hpos|Hno].
  - exists (Env.now env). split; [done|]. split; [done|]. lia.
  - eexists. split; [reflexivity|]. split; [lia|]. intros _.
    split; [done|]. split.
    + unfold getNextHourStart, getCurrentHourStart, setHoursPlus1, hour_aligned.
      apply floor_next.
    + unfold getNextHourStart, getCurrentHourStart, setHoursPlus1. lia.
Qed.
